(** * SocketStream (packages/polling/src/socketstream.ts)

    A shallow embedding of the [SocketStream] class: a stream that wraps a
    web socket, hands the reconnection logic to a [Poll] and emits the
    socket's messages through the [Stream]/[Signal] it extends.

    JavaScript objects live in stores and are named by references; a method
    is a function on the whole [World] that may complete normally or throw.
    Every call that leaves the class (on the poll, on a socket, on the
    signal data, on the client's factories) and every write of
    [this.socket] is appended to a log, in program order.

    JavaScript runs each method and each event handler to completion, so a
    method call is one step of the world. Client code is opaque: a client
    function is known by its identity only, and the socket factory is seen
    through its three possible outcomes (it opens a new socket, it hands
    back one it made earlier, it throws). *)

From stdpp Require Import base option list gmap strings.
From Stdlib Require Import Lia.

(** ** Values *)

Abbreviation SockRef := nat.
Abbreviation PromiseRef := nat.
Abbreviation StreamRef := nat.
(** A function value supplied by client code, known by its identity. *)
Abbreviation ClientFn := nat.

(** [string | ArrayBufferLike | Blob | ArrayBufferView] *)
Inductive Payload :=
| Text (s : string)
| ArrayBufferLike (bytes : list N)
| Blob (bytes : list N)
| ArrayBufferView (bytes : list N).

Record Error := JsError { err_name : string; err_message : string }.

(** [new Error('socket stream has closed')] *)
Definition stream_closed : Error :=
  JsError "Error"%string "socket stream has closed"%string.

(** What [this.socket!.send] raises when [this.socket] is [null]. *)
Definition null_send : Error :=
  JsError "TypeError"%string
          "Cannot read properties of null (reading 'send')"%string.

(** [send] on a socket that is still connecting. *)
Definition invalid_state : Error :=
  JsError "InvalidStateError"%string "Still in CONNECTING state."%string.

Inductive Completion (A : Type) :=
| Normal (a : A)
| Throw (e : Error).
Arguments Normal {A} a.
Arguments Throw {A} e.

(** The values a callback slot of a socket can hold: a client function, or
    the closure [() => reject(new Error('socket stream has closed'))] that
    [reconnect] builds over the [reject] capability of promise [p]. *)
Inductive Handler :=
| ClientHandler (f : ClientFn)
| RejectAttempt (p : PromiseRef).

Inductive PromiseState :=
| Pending
| Fulfilled
| Rejected (e : Error).

(** ** The web socket, as the class uses it *)

Inductive Slot := Onopen | Onclose | Onerror | Onmessage.

Inductive ReadyState := CONNECTING | OPEN | CLOSING | CLOSED.

Module WebSocket.

Record t := Build {
  onopen : option Handler;
  onclose : option Handler;
  onerror : option Handler;
  onmessage : option Handler;
  readyState : ReadyState;
  sent : list Payload;        (* payloads handed to [send], oldest first *)
  close_calls : nat           (* how many times [close] was called *)
}.

Definition get (k : Slot) (ws : t) : option Handler :=
  match k with
  | Onopen => onopen ws
  | Onclose => onclose ws
  | Onerror => onerror ws
  | Onmessage => onmessage ws
  end.

(** [ws.on<k> = v]: single slot, last writer wins, [null] clears it. *)
Definition set (k : Slot) (v : option Handler) (ws : t) : t :=
  match k with
  | Onopen =>
      Build v (onclose ws) (onerror ws) (onmessage ws)
            (readyState ws) (sent ws) (close_calls ws)
  | Onclose =>
      Build (onopen ws) v (onerror ws) (onmessage ws)
            (readyState ws) (sent ws) (close_calls ws)
  | Onerror =>
      Build (onopen ws) (onclose ws) v (onmessage ws)
            (readyState ws) (sent ws) (close_calls ws)
  | Onmessage =>
      Build (onopen ws) (onclose ws) (onerror ws) v
            (readyState ws) (sent ws) (close_calls ws)
  end.

Definition set_readyState (r : ReadyState) (ws : t) : t :=
  Build (onopen ws) (onclose ws) (onerror ws) (onmessage ws)
        r (sent ws) (close_calls ws).

(** [ws.send(data)]: throws while connecting, transmits when open, and
    drops the data once the socket is closing or closed. *)
Definition send (data : Payload) (ws : t) : t * Completion unit :=
  match readyState ws with
  | CONNECTING => (ws, Throw invalid_state)
  | OPEN =>
      (Build (onopen ws) (onclose ws) (onerror ws) (onmessage ws)
             (readyState ws) (sent ws ++ [data]) (close_calls ws),
       Normal ())
  | CLOSING | CLOSED => (ws, Normal ())
  end.

(** [ws.close()] *)
Definition close (ws : t) : t :=
  Build (onopen ws) (onclose ws) (onerror ws) (onmessage ws)
        (match readyState ws with
         | CONNECTING | OPEN => CLOSING
         | r => r
         end)
        (sent ws) (S (close_calls ws)).

(** The socket a factory has just made: only client functions in its
    slots, nothing sent, never closed. *)
Definition fresh (on : Slot → option ClientFn) : t :=
  Build (ClientHandler <$> on Onopen) (ClientHandler <$> on Onclose)
        (ClientHandler <$> on Onerror) (ClientHandler <$> on Onmessage)
        CONNECTING [] 0.

End WebSocket.

(** ** The collaborators *)

Module Poll.

(** Modelled from the spec: the [Poll] class of this package
    (the Poller) is not among the sources. The spec gives its
    contract: it is started at construction, [dispose()] stops it
    permanently, and [isDisposed] reports that disposal state. *)
Record t := Build { isDisposed : bool }.

(** Modelled from the spec: [new Poll({ factory })], a poll that runs. *)
Definition new : t := Build false.

(** Modelled from the spec: [dispose()] stops the poll for good. *)
Definition dispose (p : t) : t := Build true.

End Poll.

Module Stream.

(** Modelled from the spec: a consumer of the async-iterable view is
    suspended on the next value, or has been given the end of the
    sequence, or an error. *)
Inductive Consumer :=
| Awaiting
| EndOfSequence
| Failed (e : Error).

(** Modelled from the spec: the [Stream] and [Signal] classes of the
    signaling package (the MessageBus) are not among the sources. The
    spec gives the contract: listeners are notified in registration order
    until the bus is cleared; stopping the iterable view ends the
    iteration of every consumer that awaits the next value, and the view
    accepts no further emissions. *)
Record t := Build {
  listeners : list nat;
  consumers : list Consumer;
  accepting : bool
}.

(** Modelled from the spec: a new bus, with no listener and no consumer. *)
Definition new : t := Build [] [] true.

(** Modelled from the spec: [Signal.clearData(owner)] detaches every
    listener. *)
Definition clearData (b : t) : t := Build [] (consumers b) (accepting b).

(** Modelled from the spec: a consumer that awaits the next value receives
    the end of the sequence, not an error. *)
Definition end_consumer (c : Consumer) : Consumer :=
  match c with
  | Awaiting => EndOfSequence
  | c => c
  end.

(** Modelled from the spec: [stop()] ends the iterable view. *)
Definition stop (b : t) : t :=
  Build (listeners b) (end_consumer <$> consumers b) false.

(** Modelled from the spec: [connect(listener)] registers a listener
    after those already there. *)
Definition connect (l : nat) (b : t) : t :=
  Build (listeners b ++ [l]) (consumers b) (accepting b).

(** Modelled from the spec: a consumer that starts iterating is
    suspended on the next value. *)
Definition iterate (b : t) : t :=
  Build (listeners b)
        (consumers b ++ [Awaiting])
        (accepting b).

End Stream.

(** ** The class *)

(** What a call of the socket factory does. *)
Inductive ConnectorOutcome :=
| Opens (on : Slot → option ClientFn)  (* a new socket, slots as the factory set them *)
| Reuses (s : SockRef)                 (* a socket it has handed out before *)
| Fails (e : Error).                   (* it throws *)

Abbreviation Sockets := (gmap nat WebSocket.t).

Module SocketStream.

(** [SocketStream.IOptions] *)
Record IOptions := {
  opt_connector : Sockets → ConnectorOutcome;
  opt_onmessage : option (StreamRef → option ClientFn)
}.

Record t := Build {
  self : StreamRef;                        (* the identity of [this] *)
  sender : nat;
  bus : Stream.t;                          (* the inherited [Stream] *)
  connection : Poll.t;
  connector : Sockets → ConnectorOutcome;
  onmessage : option ClientFn;
  socket : option SockRef
}.

Definition set_bus (b : Stream.t) (o : t) : t :=
  Build (self o) (sender o) b (connection o) (connector o) (onmessage o)
        (socket o).

Definition set_connection (c : Poll.t) (o : t) : t :=
  Build (self o) (sender o) (bus o) c (connector o) (onmessage o) (socket o).

Definition set_socket (s : option SockRef) (o : t) : t :=
  Build (self o) (sender o) (bus o) (connection o) (connector o)
        (onmessage o) s.

End SocketStream.

Inductive Event :=
| PollNew                                          (* new Poll({ factory }) *)
| PollDispose                                      (* connection.dispose() *)
| CallOnmessageFactory (stream : StreamRef)        (* options.onmessage(this) *)
| CallConnector                                    (* this.connector() *)
| StoreSocket (s : option SockRef)                 (* this.socket = s *)
| SetSlot (s : SockRef) (k : Slot) (v : option Handler)  (* s.on<k> = v *)
| SocketSend (s : SockRef) (data : Payload)        (* s.send(data) *)
| SocketClose (s : SockRef)                        (* s.close() *)
| SignalClearData (stream : StreamRef)             (* Signal.clearData(this) *)
| StreamStop                                       (* super.stop() *)
| CallClient (f : ClientFn)                        (* a client handler runs *)
| Notify (listener : nat) (data : Payload).        (* a listener is told *)

Record World := mkWorld {
  this : SocketStream.t;
  sockets : Sockets;
  promises : list PromiseState;
  log : list Event
}.

Definition with_this (f : SocketStream.t → SocketStream.t) (w : World) : World :=
  mkWorld (f (this w)) (sockets w) (promises w) (log w).

Definition with_sockets (f : Sockets → Sockets) (w : World) : World :=
  mkWorld (this w) (f (sockets w)) (promises w) (log w).

Definition with_promises
    (f : list PromiseState → list PromiseState) (w : World) : World :=
  mkWorld (this w) (sockets w) (f (promises w)) (log w).

Definition emit_event (e : Event) (w : World) : World :=
  mkWorld (this w) (sockets w) (promises w) (log w ++ [e]).

(** *** Computations that may throw *)

Definition M (A : Type) : Type := World → World * Completion A.

Definition ret {A} (a : A) : M A := λ w, (w, Normal a).

Definition throw {A} (e : Error) : M A := λ w, (w, Throw e).

Definition bind {A B} (m : M A) (k : A → M B) : M B :=
  λ w, match m w with
       | (w', Normal a) => k a w'
       | (w', Throw e) => (w', Throw e)
       end.

Definition effect (f : World → World) : M unit := λ w, (f w, Normal ()).

Notation "'let*' x ':=' m 'in' k" := (bind m (λ x, k))
  (at level 10, x name, m at level 100, k at level 200).
Notation "m ;;; k" := (bind m (λ _, k))
  (at level 100, k at level 200, right associativity).

(** *** Calls that leave the class *)

(** [s.on<k> = v] *)
Definition set_slot (s : SockRef) (k : Slot) (v : option Handler) : M unit :=
  effect (λ w, emit_event (SetSlot s k v)
                 (with_sockets (alter (WebSocket.set k v) s) w)).

(** [s.close()] *)
Definition socket_close (s : SockRef) : M unit :=
  effect (λ w, emit_event (SocketClose s)
                 (with_sockets (alter WebSocket.close s) w)).

(** [s.send(data)] *)
Definition socket_send (s : SockRef) (data : Payload) : M unit :=
  λ w, let w1 := emit_event (SocketSend s data) w in
       match sockets w1 !! s with
       | Some ws =>
           let '(ws', c) := WebSocket.send data ws in
           (with_sockets (<[s := ws']>) w1, c)
       | None => (w1, Normal ())
       end.

(** [this.socket = s] *)
Definition store_socket (s : option SockRef) : M unit :=
  effect (λ w, emit_event (StoreSocket s)
                 (with_this (SocketStream.set_socket s) w)).

(** [this.connector()]: a new socket gets the first unused reference. *)
Definition new_ref (h : Sockets) : SockRef := fresh (dom h : gset nat).

Definition call_connector : M SockRef :=
  λ w, let w1 := emit_event CallConnector w in
       match SocketStream.connector (this w) (sockets w) with
       | Opens on =>
           let s := new_ref (sockets w) in
           (with_sockets (<[s := WebSocket.fresh on]>) w1, Normal s)
       | Reuses s => (w1, Normal s)
       | Fails e => (w1, Throw e)
       end.

(** *** Promises *)

(** [reject(e)] on promise [p]: settles it unless it is settled already. *)
Definition reject (p : PromiseRef) (e : Error) (w : World) : World :=
  match promises w !! p with
  | Some Pending => with_promises (<[p := Rejected e]>) w
  | _ => w
  end.

(** [new Promise(executor)]: the executor runs at once with the [reject]
    capability of the new promise; if it throws, the promise is rejected
    with what it threw and the constructor returns normally. *)
Definition new_Promise (executor : PromiseRef → M unit) : M PromiseRef :=
  λ w, let p := length (promises w) in
       match executor p (with_promises (λ ps, ps ++ [Pending]) w) with
       | (w', Normal _) => (w', Normal p)
       | (w', Throw e) => (reject p e w', Normal p)
       end.

(** [async] wrapper: the promise of the call is fulfilled when the body
    returns no value, follows the promise the body returns (the two are one
    reference here), and is rejected with what the body throws. *)
Definition async (body : M (option PromiseRef)) : M PromiseRef :=
  λ w, match body w with
       | (w', Normal (Some p)) => (w', Normal p)
       | (w', Normal None) =>
           (with_promises (λ ps, ps ++ [Fulfilled]) w',
            Normal (length (promises w')))
       | (w', Throw e) =>
           (with_promises (λ ps, ps ++ [Rejected e]) w',
            Normal (length (promises w')))
       end.

(** *** Methods *)

(** [get isDisposed()] *)
Definition isDisposed (w : World) : bool :=
  Poll.isDisposed (SocketStream.connection (this w)).

(** [constructor(sender, options)], on the object allocated at [self],
    with the field initialisers run after [super(sender)]. The inner match
    is [|| null]: a function is truthy and stays, [null] stays [null]. *)
Definition constructor
    (self : StreamRef) (sender : nat) (options : SocketStream.IOptions)
    (h : Sockets) : World :=
  let o :=
    SocketStream.Build self sender Stream.new Poll.new
      (SocketStream.opt_connector options) None None in
  let w := emit_event PollNew (mkWorld o h [] []) in
  match SocketStream.opt_onmessage options with
  | Some factory =>
      let w' := emit_event (CallOnmessageFactory self) w in
      with_this (λ o, SocketStream.Build
                        (SocketStream.self o) (SocketStream.sender o)
                        (SocketStream.bus o) (SocketStream.connection o)
                        (SocketStream.connector o)
                        (match factory self with
                         | Some f => Some f
                         | None => None
                         end)
                        (SocketStream.socket o)) w'
  | None => w
  end.

(** [dispose()] *)
Definition dispose : M unit :=
  λ w,
    let socket := SocketStream.socket (this w) in
    (effect (λ w, emit_event PollDispose
                    (with_this (λ o, SocketStream.set_connection
                                       (Poll.dispose (SocketStream.connection o)) o) w)) ;;;
     match socket with
     | Some s =>
         set_slot s Onclose None ;;;
         set_slot s Onerror None ;;;
         set_slot s Onmessage None ;;;
         set_slot s Onopen None ;;;
         socket_close s
     | None => ret ()
     end ;;;
     store_socket None ;;;
     effect (λ w, emit_event (SignalClearData (SocketStream.self (this w)))
                    (with_this (λ o, SocketStream.set_bus
                                       (Stream.clearData (SocketStream.bus o)) o) w)) ;;;
     effect (λ w, emit_event StreamStop
                    (with_this (λ o, SocketStream.set_bus
                                       (Stream.stop (SocketStream.bus o)) o) w))) w.

(** [send(data)] *)
Definition send (data : Payload) : M unit :=
  λ w,
    if isDisposed w then ret () w
    else match SocketStream.socket (this w) with
         | Some s => socket_send s data w
         | None => throw null_send w
         end.

(** The executor that [reconnect] passes to [new Promise]. *)
Definition reconnect_executor (p : PromiseRef) : M unit :=
  let* s := call_connector in
  store_socket (Some s) ;;;
  set_slot s Onclose (Some (RejectAttempt p)) ;;;
  (λ w, set_slot s Onmessage
          (ClientHandler <$> SocketStream.onmessage (this w)) w).

(** [async reconnect()] *)
Definition reconnect : M PromiseRef :=
  async (λ w,
    if isDisposed w then ret None w
    else (let* p := new_Promise reconnect_executor in ret (Some p)) w).

(** ** What happens to a stream *)

Inductive SocketEvent :=
| EvOpen
| EvClose
| EvError
| EvMessage (data : Payload).

Definition slot_of (ev : SocketEvent) : Slot :=
  match ev with
  | EvOpen => Onopen
  | EvClose => Onclose
  | EvError => Onerror
  | EvMessage _ => Onmessage
  end.

Definition ready_after (ev : SocketEvent) (r : ReadyState) : ReadyState :=
  match ev with
  | EvOpen => OPEN
  | EvClose => CLOSED
  | _ => r
  end.

(** Running the handler found in a slot. *)
Definition invoke (h : Handler) (w : World) : World :=
  match h with
  | ClientHandler f => emit_event (CallClient f) w
  | RejectAttempt p => reject p stream_closed w
  end.

(** Socket [s] delivers [ev]: the handler in the event's slot runs. *)
Definition fire (s : SockRef) (ev : SocketEvent) (w : World) : World :=
  match sockets w !! s with
  | Some ws =>
      let w1 :=
        with_sockets
          (<[s := WebSocket.set_readyState
                    (ready_after ev (WebSocket.readyState ws)) ws]>) w in
      match WebSocket.get (slot_of ev) ws with
      | Some h => invoke h w1
      | None => w1
      end
  | None => w
  end.

(** Modelled from the spec: [emit(value)] of the [Stream] class, which is
    not among the sources: every listener is told, in registration
    order. *)
Definition emit (data : Payload) (w : World) : World :=
  mkWorld (this w) (sockets w) (promises w)
          (log w ++ ((λ l, Notify l data)
                       <$> Stream.listeners (SocketStream.bus (this w)))).

Inductive Action :=
| Send (data : Payload)          (* a caller sends *)
| Dispose                        (* the owner disposes the stream *)
| Reconnect                      (* the poll runs its factory *)
| Fire (s : SockRef) (ev : SocketEvent)
| Connect (listener : nat)       (* a listener subscribes *)
| Iterate                        (* a consumer starts iterating *)
| Emit (data : Payload).         (* a value is emitted on the stream *)

Definition step (a : Action) (w : World) : World :=
  match a with
  | Send data => (send data w).1
  | Dispose => (dispose w).1
  | Reconnect => (reconnect w).1
  | Fire s ev => fire s ev w
  | Connect l =>
      with_this (λ o, SocketStream.set_bus
                        (Stream.connect l (SocketStream.bus o)) o) w
  | Iterate =>
      with_this (λ o, SocketStream.set_bus
                        (Stream.iterate (SocketStream.bus o)) o) w
  | Emit data => emit data w
  end.

Definition run (acts : list Action) (w : World) : World :=
  foldl (λ w a, step a w) w acts.

(** The part of the world an observer can inspect: the object, the sockets
    (slots, ready state, what was sent, how often each was closed) and the
    promises. The log is the record of the calls made on the way. *)
Definition state_of (w : World) :=
  (this w, sockets w, promises w).

(** No socket holds a reject closure of a promise that does not exist yet. *)
Definition slot_closed (n : nat) (v : option Handler) : bool :=
  match v with
  | Some (RejectAttempt q) => q <? n
  | _ => true
  end.

Definition socket_closed (n : nat) (ws : WebSocket.t) : bool :=
  slot_closed n (WebSocket.onopen ws) && slot_closed n (WebSocket.onclose ws)
  && slot_closed n (WebSocket.onerror ws)
  && slot_closed n (WebSocket.onmessage ws).

Definition heap_closed (w : World) : Prop :=
  map_Forall (λ _ ws, socket_closed (length (promises w)) ws = true)
             (sockets w).

(** The factory returns normally, and [s] is the socket it returns. *)
Definition connector_returns (w : World) (s : SockRef) : Prop :=
  match SocketStream.connector (this w) (sockets w) with
  | Opens _ => s = new_ref (sockets w)
  | Reuses s' => s = s' ∧ is_Some (sockets w !! s')
  | Fails _ => False
  end.

(** The disposed state: the poll is disposed and no socket is stored. *)
Definition disposed_state (w : World) : Prop :=
  isDisposed w = true ∧ SocketStream.socket (this w) = None.

(** What [dispose] leaves of a socket: every slot cleared, then closed. *)
Definition torn_down (ws : WebSocket.t) : WebSocket.t :=
  WebSocket.close
    (WebSocket.Build None None None None (WebSocket.readyState ws)
                     (WebSocket.sent ws) (WebSocket.close_calls ws)).

(** Socket [s] holds the reject closure of promise [q] in slot [k]. *)
Definition holds_reject (w : World) (q : PromiseRef) (s : SockRef) (k : Slot)
    : Prop :=
  ∃ ws, sockets w !! s = Some ws ∧ WebSocket.get k ws = Some (RejectAttempt q).

(** The invariant of an attempt: its promise is pending or rejected with
    the closed-stream error, and its reject closure sits nowhere but in the
    close slot of its socket. *)
Definition attempt_inv (p : PromiseRef) (s : SockRef) (w : World) : Prop :=
  (promises w !! p = Some Pending
   ∨ promises w !! p = Some (Rejected stream_closed))
  ∧ ∀ s' k, holds_reject w p s' k → s' = s ∧ k = Onclose.

#[global] Instance heap_closed_dec w : Decision (heap_closed w).
Proof. unfold heap_closed. apply _. Defined.

(** ** Sample streams *)

(** A factory that always opens a socket, with its own [onopen] and
    [onerror] handlers, and a message hook made from the stream. *)
Definition demo_options : SocketStream.IOptions :=
  {| SocketStream.opt_connector :=
       λ _, Opens (λ k, match k with
                        | Onopen => Some 7
                        | Onerror => Some 8
                        | _ => None
                        end);
     SocketStream.opt_onmessage := Some (λ stream, Some (100 + stream)) |}.

(** A new stream, before the poll has run. *)
Definition demo_world : World := constructor 1 0 demo_options ∅.

(** The same stream once its first socket is open. *)
Definition demo_connected : World := run [Reconnect; Fire 0 EvOpen] demo_world.

Definition refused : Error :=
  JsError "Error"%string "connection refused"%string.

(** A stream whose factory throws. *)
Definition failing_world : World :=
  constructor 2 0
    {| SocketStream.opt_connector := λ _, Fails refused;
       SocketStream.opt_onmessage := None |} ∅.

(** A stream whose factory hands back its first socket on every later
    call. *)
Definition reusing_world : World :=
  constructor 3 0
    {| SocketStream.opt_connector :=
         λ h, match h !! 0 with
              | Some _ => Reuses 0
              | None => Opens (λ _, None)
              end;
       SocketStream.opt_onmessage := None |} ∅.

(** The handlers the sample factory puts on a socket it makes. *)
Definition demo_handlers : Slot → option ClientFn :=
  λ k, match k with
       | Onopen => Some 7
       | Onerror => Some 8
       | _ => None
       end.

(** The first socket of the connected sample stream. *)
Definition demo_socket : WebSocket.t :=
  WebSocket.Build (Some (ClientHandler 7)) (Some (RejectAttempt 0))
                  (Some (ClientHandler 8)) (Some (ClientHandler 101))
                  OPEN [] 0.

(** The sample stream in a reconnection gap: its socket has closed, the
    attempt's promise is rejected and the next attempt has not run. *)
Definition demo_gap : World :=
  run [Reconnect; Fire 0 EvOpen; Fire 0 EvClose] demo_world.

(** The stream has no current transport: it stores no socket, or the socket
    it stores has closed. *)
Definition no_current_transport (w : World) : Prop :=
  match SocketStream.socket (this w) with
  | None => True
  | Some s => WebSocket.readyState <$> sockets w !! s = Some CLOSED
  end.

(** ** Reading the log *)

(** The events that are calls on a socket or on the socket factory. *)
Definition socket_call (e : Event) : bool :=
  match e with
  | CallConnector | SetSlot _ _ _ | SocketSend _ _ | SocketClose _ => true
  | _ => false
  end.

(** How many times a log shows the socket factory being called. *)
Definition connector_calls (l : list Event) : nat :=
  sum_list_with (λ e, match e with CallConnector => 1 | _ => 0 end) l.

(** The stored socket carries the stream's message hook in its message
    slot and a reject closure in its close slot. *)
Definition wired (w : World) : Prop :=
  ∀ s ws,
    SocketStream.socket (this w) = Some s →
    sockets w !! s = Some ws →
    WebSocket.onmessage ws = ClientHandler <$> SocketStream.onmessage (this w)
    ∧ ∃ p, WebSocket.onclose ws = Some (RejectAttempt p).

(** * Properties *)

(** ** Projections of the steps *)

Ltac unfold_dispose :=
  unfold dispose, bind, effect, ret, set_slot, socket_close, store_socket.

Ltac unfold_reconnect :=
  unfold reconnect, async, new_Promise, reconnect_executor, call_connector,
    bind, ret, store_socket, set_slot, effect.

Lemma new_ref_fresh (h : Sockets) : h !! new_ref h = None.
Proof. unfold new_ref. apply (not_elem_of_dom (D := gset nat)), is_fresh. Qed.

Lemma this_reject p e w : this (reject p e w) = this w.
Proof. unfold reject. by repeat case_match. Qed.

Lemma sockets_reject p e w : sockets (reject p e w) = sockets w.
Proof. unfold reject. by repeat case_match. Qed.

Lemma length_promises_reject p e w :
  length (promises (reject p e w)) = length (promises w).
Proof. unfold reject. repeat case_match; simpl; by rewrite ?length_insert. Qed.

Lemma this_fire s ev w : this (fire s ev w) = this w.
Proof.
  unfold fire, invoke. repeat case_match; simpl; by rewrite ?this_reject.
Qed.

Lemma this_send data w : this (send data w).1 = this w.
Proof.
  unfold send, socket_send, ret, throw. by repeat (case_match; simpl).
Qed.

(** A disposed stream stays as it is under [reconnect], but for the promise
    the call returns. *)
Lemma reconnect_disposed w :
  isDisposed w = true →
  reconnect w
    = (with_promises (λ ps, ps ++ [Fulfilled]) w, Normal (length (promises w))).
Proof. intros Hd. unfold reconnect, async. by rewrite Hd. Qed.

Lemma send_disposed data w : isDisposed w = true → send data w = (w, Normal ()).
Proof. intros Hd. unfold send. by rewrite Hd. Qed.

Lemma dispose_disposes w :
  isDisposed (dispose w).1 = true
  ∧ SocketStream.socket (this (dispose w).1) = None.
Proof.
  unfold_dispose.
  by destruct (SocketStream.socket (this w)).
Qed.

Lemma disposed_state_step a w : disposed_state w → disposed_state (step a w).
Proof.
  intros [Hd Hs]. destruct a as [data| | |s ev|l| |data]; simpl.
  - by rewrite send_disposed.
  - apply dispose_disposes.
  - by rewrite reconnect_disposed.
  - unfold disposed_state, isDisposed. by rewrite this_fire.
  - done.
  - done.
  - done.
Qed.

Lemma run_snoc acts a w : run (acts ++ [a]) w = step a (run acts w).
Proof. unfold run. by rewrite foldl_snoc. Qed.

Lemma disposed_state_run acts w : disposed_state w → disposed_state (run acts w).
Proof.
  revert w. induction acts as [|a acts IH]; intros w Hw; [done|].
  apply IH. by apply disposed_state_step.
Qed.

(** ** [send] on a disposed stream *)

(** C1. Once [dispose()] has completed, and whatever happened to the stream
    since, [send(data)] returns normally and leaves the whole world as it
    was: no field, socket or promise changes and the log gains no entry, so
    no operation of any socket is invoked. *)
Theorem send_after_dispose (w0 : World) (acts : list Action) (data : Payload) :
  let w := run acts (dispose w0).1 in
  send data w = (w, Normal ()) ∧ log (send data w).1 = log w.
Proof.
  intros w.
  assert (Hd : isDisposed w = true).
  { apply (disposed_state_run acts), dispose_disposes. }
  by rewrite send_disposed.
Qed.

(** ** [dispose] *)

Lemma end_consumer_idemp c :
  Stream.end_consumer (Stream.end_consumer c) = Stream.end_consumer c.
Proof. by destruct c. Qed.

(** What [dispose] leaves of the object itself. *)
Lemma this_dispose w :
  this (dispose w).1
  = SocketStream.Build
      (SocketStream.self (this w)) (SocketStream.sender (this w))
      (Stream.Build [] (Stream.end_consumer <$> Stream.consumers
                                                  (SocketStream.bus (this w)))
                    false)
      (Poll.Build true) (SocketStream.connector (this w))
      (SocketStream.onmessage (this w)) None.
Proof.
  unfold_dispose.
  by destruct (SocketStream.socket (this w)).
Qed.

Lemma promises_dispose w : promises (dispose w).1 = promises w.
Proof.
  unfold_dispose.
  by destruct (SocketStream.socket (this w)).
Qed.

Lemma dispose_normal w : (dispose w).2 = Normal ().
Proof.
  unfold_dispose.
  by destruct (SocketStream.socket (this w)).
Qed.

(** With no socket stored, [dispose] touches no socket. *)
Lemma dispose_no_socket w :
  SocketStream.socket (this w) = None →
  sockets (dispose w).1 = sockets w
  ∧ log (dispose w).1
    = log w ++ [PollDispose; StoreSocket None;
                SignalClearData (SocketStream.self (this w)); StreamStop].
Proof.
  intros Hs.
  unfold_dispose.
  rewrite Hs. simpl. by rewrite <- !app_assoc.
Qed.

Lemma state_dispose_again w :
  state_of (dispose (dispose w).1).1 = state_of (dispose w).1.
Proof.
  unfold state_of.
  destruct (dispose_no_socket (dispose w).1) as [-> _].
  { by rewrite this_dispose. }
  rewrite promises_dispose, !this_dispose. simpl.
  rewrite <- list_fmap_compose.
  do 3 f_equal. f_equal. apply list_fmap_ext. intros _ c _. simpl.
  apply end_consumer_idemp.
Qed.

(** C2. [dispose()] is idempotent. After a first call, any number of
    further calls leaves the object, every socket and every promise exactly
    as the first call left them; a further call returns normally, and the
    calls it makes are the poll's [dispose], the write of [null] to
    [this.socket], [Signal.clearData] and [stop], each of which finds
    nothing left to change: no slot of any socket is written and no socket
    is closed a second time. *)
Theorem dispose_idempotent (w0 : World) (n : nat) :
  let disp := λ w, (dispose w).1 in
  let w1 := disp w0 in
  state_of (Nat.iter n disp w1) = state_of w1
  ∧ (dispose w1).2 = Normal ()
  ∧ log (disp w1)
    = log w1 ++ [PollDispose; StoreSocket None;
                 SignalClearData (SocketStream.self (this w1)); StreamStop].
Proof.
  intros disp w1. split; [|split].
  - induction n as [|n IH]; [done|].
    rewrite Nat.iter_succ, <- IH. subst w1.
    rewrite <- Nat.iter_succ_r, Nat.iter_succ.
    apply state_dispose_again.
  - apply dispose_normal.
  - apply dispose_no_socket. subst w1 disp. simpl. by rewrite this_dispose.
Qed.

Lemma dispose_with_socket w s :
  SocketStream.socket (this w) = Some s →
  sockets (dispose w).1 = alter torn_down s (sockets w)
  ∧ log (dispose w).1
    = log w ++ [PollDispose;
                SetSlot s Onclose None; SetSlot s Onerror None;
                SetSlot s Onmessage None; SetSlot s Onopen None;
                SocketClose s;
                StoreSocket None;
                SignalClearData (SocketStream.self (this w)); StreamStop].
Proof.
  intros Hs.
  unfold_dispose.
  rewrite Hs. simpl. split.
  - rewrite !alter_alter_eq. apply alter_ext. by intros [].
  - by rewrite <- !app_assoc.
Qed.

(** C5. The effects of a call of [dispose()], in order. The log gains, in
    this order: the poll's [dispose]; if a socket is stored, the clearing
    of its four slots ([onclose], [onerror], [onmessage], [onopen]) and
    then its [close]; the write of [null] to [this.socket];
    [Signal.clearData(this)]; [stop()]. The call returns normally, the
    stream reports disposed, the stored socket has its slots cleared and
    one more [close], no socket is stored, no listener is left, and every
    consumer that awaited the next value is at the end of the sequence
    (none is failed by the call). *)
Theorem dispose_effects (w : World) :
  let w' := (dispose w).1 in
  let id := SocketStream.self (this w) in
  (dispose w).2 = Normal ()
  ∧ log w'
    = log w ++ [PollDispose]
        ++ match SocketStream.socket (this w) with
           | Some s =>
               [SetSlot s Onclose None; SetSlot s Onerror None;
                SetSlot s Onmessage None; SetSlot s Onopen None;
                SocketClose s]
           | None => []
           end
        ++ [StoreSocket None; SignalClearData id; StreamStop]
  ∧ isDisposed w' = true
  ∧ sockets w'
    = match SocketStream.socket (this w) with
      | Some s => alter torn_down s (sockets w)
      | None => sockets w
      end
  ∧ SocketStream.socket (this w') = None
  ∧ Stream.listeners (SocketStream.bus (this w')) = []
  ∧ Stream.consumers (SocketStream.bus (this w'))
    = Stream.end_consumer <$> Stream.consumers (SocketStream.bus (this w))
  ∧ (∀ i, Stream.consumers (SocketStream.bus (this w)) !! i
            = Some Stream.Awaiting →
          Stream.consumers (SocketStream.bus (this w')) !! i
            = Some Stream.EndOfSequence).
Proof.
  intros w' id. subst w'.
  split; [apply dispose_normal|].
  destruct (SocketStream.socket (this w)) as [s|] eqn:Hs.
  - destruct (dispose_with_socket w s Hs) as [-> ->].
    rewrite this_dispose. unfold isDisposed. rewrite this_dispose. simpl.
    repeat split. intros i Hi. by rewrite list_lookup_fmap, Hi.
  - destruct (dispose_no_socket w Hs) as [-> ->].
    rewrite this_dispose. unfold isDisposed. rewrite this_dispose. simpl.
    repeat split. intros i Hi. by rewrite list_lookup_fmap, Hi.
Qed.

(** C8. Disposal is terminal. From the moment [dispose()] has completed,
    and after any sequence of sends, disposals, reconnection attempts,
    socket events and subscriptions, the stream reports disposed, the poll
    is disposed and no socket is stored. *)
Theorem disposal_is_terminal (w0 : World) (acts : list Action) :
  let w := run acts (dispose w0).1 in
  isDisposed w = true
  ∧ Poll.isDisposed (SocketStream.connection (this w)) = true
  ∧ SocketStream.socket (this w) = None.
Proof.
  intros w.
  destruct (disposed_state_run acts (dispose w0).1) as [Hd Hs].
  { apply dispose_disposes. }
  done.
Qed.

(** ** [reconnect] *)

(** C4. On a disposed stream [reconnect()] returns normally a promise that
    is already fulfilled. Nothing else happens: the object and every socket
    are as before, the promises that existed are as before, and the log
    gains no entry, so the factory is not called and no socket is made. *)
Theorem reconnect_when_disposed (w : World) :
  isDisposed w = true →
  let p := length (promises w) in
  let w' := (reconnect w).1 in
  (reconnect w).2 = Normal p
  ∧ promises w' = promises w ++ [Fulfilled]
  ∧ promises w' !! p = Some Fulfilled
  ∧ this w' = this w
  ∧ sockets w' = sockets w
  ∧ log w' = log w.
Proof.
  intros Hd p w'. subst w'. rewrite reconnect_disposed by done. simpl.
  repeat split. by rewrite lookup_app_r, Nat.sub_diag.
Qed.

(** ** [send] with no socket stored *)

(** With no socket stored, [send(data)] on a live stream throws the
    [TypeError] of calling [send] on [null] and leaves the world as it
    was. *)
Lemma send_without_socket (w : World) (data : Payload) :
  isDisposed w = false →
  SocketStream.socket (this w) = None →
  send data w = (w, Throw null_send).
Proof. intros Hd Hs. unfold send. by rewrite Hd, Hs. Qed.

(** The three ways a reconnection attempt on a live stream can go. *)

Lemma insert_last {A} (l : list A) (x y : A) :
  <[length l := y]> (l ++ [x]) = l ++ [y].
Proof.
  rewrite (insert_app_r_alt l [x] (length l) y) by lia.
  by rewrite Nat.sub_diag.
Qed.

Lemma lookup_last {A} (l : list A) (x : A) : (l ++ [x]) !! length l = Some x.
Proof. by rewrite lookup_app_r, Nat.sub_diag. Qed.

Lemma reconnect_opens w on :
  isDisposed w = false →
  SocketStream.connector (this w) (sockets w) = Opens on →
  let s := new_ref (sockets w) in
  let p := length (promises w) in
  reconnect w
  = (mkWorld
       (SocketStream.set_socket (Some s) (this w))
       (<[s := WebSocket.Build
                 (ClientHandler <$> on Onopen) (Some (RejectAttempt p))
                 (ClientHandler <$> on Onerror)
                 (ClientHandler <$> SocketStream.onmessage (this w))
                 CONNECTING [] 0]> (sockets w))
       (promises w ++ [Pending])
       (log w ++ [CallConnector; StoreSocket (Some s);
                  SetSlot s Onclose (Some (RejectAttempt p));
                  SetSlot s Onmessage
                    (ClientHandler <$> SocketStream.onmessage (this w))]),
     Normal p).
Proof.
  intros Hd Hc s p.
  unfold_reconnect.
  rewrite Hd. simpl. rewrite Hc. simpl.
  unfold with_sockets, emit_event, with_this. simpl.
  rewrite !alter_insert_eq, <- !app_assoc. done.
Qed.

Lemma reconnect_reuses w s :
  isDisposed w = false →
  SocketStream.connector (this w) (sockets w) = Reuses s →
  let p := length (promises w) in
  reconnect w
  = (mkWorld
       (SocketStream.set_socket (Some s) (this w))
       (alter (WebSocket.set Onmessage
                 (ClientHandler <$> SocketStream.onmessage (this w)))
              s (alter (WebSocket.set Onclose (Some (RejectAttempt p)))
                       s (sockets w)))
       (promises w ++ [Pending])
       (log w ++ [CallConnector; StoreSocket (Some s);
                  SetSlot s Onclose (Some (RejectAttempt p));
                  SetSlot s Onmessage
                    (ClientHandler <$> SocketStream.onmessage (this w))]),
     Normal p).
Proof.
  intros Hd Hc p.
  unfold_reconnect.
  rewrite Hd. simpl. rewrite Hc. simpl.
  unfold with_sockets, emit_event, with_this. simpl.
  by rewrite <- !app_assoc.
Qed.

Lemma reconnect_fails w e :
  isDisposed w = false →
  SocketStream.connector (this w) (sockets w) = Fails e →
  reconnect w
  = (mkWorld (this w) (sockets w) (promises w ++ [Rejected e])
             (log w ++ [CallConnector]),
     Normal (length (promises w))).
Proof.
  intros Hd Hc.
  unfold_reconnect.
  rewrite Hd. simpl. rewrite Hc. simpl.
  unfold reject. simpl. rewrite lookup_last.
  unfold with_promises. simpl. by rewrite insert_last.
Qed.

(** [reconnect] never throws: every outcome is a promise. *)
Lemma reconnect_returns w : (reconnect w).2 = Normal (length (promises w)).
Proof.
  destruct (isDisposed w) eqn:Hd.
  - by rewrite reconnect_disposed.
  - destruct (SocketStream.connector (this w) (sockets w)) as [on|s|e] eqn:Hc.
    + by rewrite (reconnect_opens w on).
    + by rewrite (reconnect_reuses w s).
    + by rewrite (reconnect_fails w e).
Qed.

(** C6. When the factory throws [e] on a live stream, the exception does
    not escape [reconnect()]: the call returns normally a promise that is
    rejected with [e], as the promise of an earlier attempt is rejected
    when its socket closes. The stored socket and the sockets are as
    before. *)
Theorem reconnect_factory_throws (w : World) (e : Error) :
  isDisposed w = false →
  SocketStream.connector (this w) (sockets w) = Fails e →
  let p := length (promises w) in
  let w' := (reconnect w).1 in
  (reconnect w).2 = Normal p
  ∧ promises w' !! p = Some (Rejected e)
  ∧ this w' = this w
  ∧ sockets w' = sockets w
  ∧ log w' = log w ++ [CallConnector].
Proof.
  intros Hd Hc p w'. subst w'. rewrite (reconnect_fails w e) by done. simpl.
  repeat split. apply lookup_last.
Qed.

(** C10. A reconnection attempt on a live stream whose factory makes a new
    socket [s] writes two slots, [s.onclose] and [s.onmessage], and nothing
    else of any socket: [s.onopen] and [s.onerror] hold what the factory
    put there, and every other socket is as it was. In particular the
    socket stored before, [prev], keeps its four slots, its ready state and
    its count of [close] calls (it is not closed); [s] replaces it as the
    stored socket. *)
Theorem reconnect_frame (w : World) (on : Slot → option ClientFn) :
  isDisposed w = false →
  SocketStream.connector (this w) (sockets w) = Opens on →
  let s := new_ref (sockets w) in
  let p := length (promises w) in
  let w' := (reconnect w).1 in
  log w'
  = log w ++ [CallConnector; StoreSocket (Some s);
              SetSlot s Onclose (Some (RejectAttempt p));
              SetSlot s Onmessage
                (ClientHandler <$> SocketStream.onmessage (this w))]
  ∧ sockets w' !! s
    = Some (WebSocket.Build
              (ClientHandler <$> on Onopen) (Some (RejectAttempt p))
              (ClientHandler <$> on Onerror)
              (ClientHandler <$> SocketStream.onmessage (this w))
              CONNECTING [] 0)
  ∧ (∀ s', s' ≠ s → sockets w' !! s' = sockets w !! s')
  ∧ SocketStream.socket (this w') = Some s
  ∧ ∀ prev wsp,
      SocketStream.socket (this w) = Some prev →
      sockets w !! prev = Some wsp →
      s ≠ prev ∧ sockets w' !! prev = Some wsp.
Proof.
  intros Hd Hc s p w'. subst w'.
  rewrite (reconnect_opens w on) by done. simpl.
  split; [done|]. split; [apply lookup_insert_eq|]. split.
  { intros s' Hs'. by rewrite lookup_insert_ne. }
  split; [done|].
  intros prev wsp Hprev Hlive.
  assert (Hne : s ≠ prev).
  { subst s. intros Heq. by rewrite <- Heq, new_ref_fresh in Hlive. }
  split; [done|]. by rewrite lookup_insert_ne.
Qed.

(** ** Construction *)

(** No method writes [connector] or [onmessage] after construction. *)
Lemma fields_step a w :
  SocketStream.connector (this (step a w)) = SocketStream.connector (this w)
  ∧ SocketStream.onmessage (this (step a w))
    = SocketStream.onmessage (this w).
Proof.
  destruct a as [data| | |s ev|l| |data]; simpl; [| | | |done..].
  - by rewrite this_send.
  - by rewrite this_dispose.
  - destruct (isDisposed w) eqn:Hd.
    + by rewrite reconnect_disposed.
    + destruct (SocketStream.connector (this w) (sockets w))
        as [on|s|e] eqn:Hc.
      * by rewrite (reconnect_opens w on).
      * by rewrite (reconnect_reuses w s).
      * by rewrite (reconnect_fails w e).
  - by rewrite this_fire.
Qed.

Lemma fields_run acts w :
  SocketStream.connector (this (run acts w)) = SocketStream.connector (this w)
  ∧ SocketStream.onmessage (this (run acts w))
    = SocketStream.onmessage (this w).
Proof.
  induction acts as [|a acts IH] using rev_ind; [done|].
  rewrite run_snoc. destruct (fields_step a (run acts w)) as [Hc Hm].
  destruct IH as [IHc IHm]. split; congruence.
Qed.

(** C9. The constructor stores the factory of [options.connector]. When
    [options.onmessage] is given it is called once, with the stream itself,
    and what it returns is stored as [this.onmessage]; when it is not given
    nothing is called and [this.onmessage] is [null]. Neither field changes
    afterwards, and a reconnection attempt that makes a new socket puts the
    stored value in the socket's message slot ([null] when there is none). *)
Theorem constructor_stores_forwarder
    (self : StreamRef) (sender : nat) (options : SocketStream.IOptions)
    (h : Sockets) :
  let w0 := constructor self sender options h in
  let hook := SocketStream.opt_onmessage options ≫= λ factory, factory self in
  SocketStream.connector (this w0) = SocketStream.opt_connector options
  ∧ log w0
    = PollNew :: match SocketStream.opt_onmessage options with
                 | Some _ => [CallOnmessageFactory self]
                 | None => []
                 end
  ∧ SocketStream.onmessage (this w0) = hook
  ∧ ∀ acts,
      let w := run acts w0 in
      SocketStream.connector (this w) = SocketStream.opt_connector options
      ∧ SocketStream.onmessage (this w) = hook
      ∧ ∀ on,
          isDisposed w = false →
          SocketStream.connector (this w) (sockets w) = Opens on →
          WebSocket.onmessage <$> sockets (reconnect w).1 !! new_ref (sockets w)
          = Some (ClientHandler <$> hook).
Proof.
  intros w0 hook.
  assert (Hc : SocketStream.connector (this w0)
               = SocketStream.opt_connector options).
  { subst w0. unfold constructor. by destruct (SocketStream.opt_onmessage options). }
  assert (Hm : SocketStream.onmessage (this w0) = hook).
  { subst w0 hook. unfold constructor.
    destruct (SocketStream.opt_onmessage options) as [factory|]; simpl; [|done].
    by destruct (factory self). }
  split; [done|]. split.
  { subst w0. unfold constructor. by destruct (SocketStream.opt_onmessage options). }
  split; [done|].
  intros acts w. destruct (fields_run acts w0) as [Hc' Hm'].
  fold w in Hc', Hm'.
  split; [congruence|]. split; [congruence|].
  intros on Hd Hopens. rewrite (reconnect_opens w on) by done. simpl.
  by rewrite lookup_insert_eq, Hm', Hm.
Qed.

(** ** The promise of a reconnection attempt *)

Lemma get_send k data ws :
  WebSocket.get k (WebSocket.send data ws).1 = WebSocket.get k ws.
Proof. unfold WebSocket.send. by destruct (WebSocket.readyState ws), k. Qed.

Lemma get_set_readyState k r ws :
  WebSocket.get k (WebSocket.set_readyState r ws) = WebSocket.get k ws.
Proof. by destruct k. Qed.

Lemma get_torn_down k ws : WebSocket.get k (torn_down ws) = None.
Proof. by destruct k. Qed.

Lemma promises_send data w : promises (send data w).1 = promises w.
Proof.
  unfold send, socket_send, ret, throw. by repeat (case_match; simpl).
Qed.

Lemma promises_reconnect w :
  ∃ st, promises (reconnect w).1 = promises w ++ [st].
Proof.
  destruct (isDisposed w) eqn:Hd.
  - rewrite reconnect_disposed by done. by eexists.
  - destruct (SocketStream.connector (this w) (sockets w)) as [on|s|e] eqn:Hc.
    + rewrite (reconnect_opens w on) by done. by eexists.
    + rewrite (reconnect_reuses w s) by done. by eexists.
    + rewrite (reconnect_fails w e) by done. by eexists.
Qed.

Lemma slot_closed_lt n q : slot_closed n (Some (RejectAttempt q)) = true → q < n.
Proof. simpl. apply Nat.ltb_lt. Qed.

(** In a closed heap every reject closure belongs to an existing promise. *)
Lemma heap_closed_holds w q s k :
  heap_closed w → holds_reject w q s k → q < length (promises w).
Proof.
  intros Hc (ws & Hws & Hk). specialize (Hc s ws Hws). simpl in Hc.
  unfold socket_closed in Hc. rewrite !andb_true_iff in Hc.
  destruct Hc as [[[Ho Hc] He] Hm].
  destruct k; simpl in Hk; apply slot_closed_lt; congruence.
Qed.

Lemma holds_heap_closed w :
  (∀ q s k, holds_reject w q s k → q < length (promises w)) → heap_closed w.
Proof.
  intros H s ws Hws. simpl. unfold socket_closed. rewrite !andb_true_iff.
  assert (Hk : ∀ k, slot_closed (length (promises w)) (WebSocket.get k ws)
                    = true).
  { intros k. destruct (WebSocket.get k ws) as [[f|q]|] eqn:Hk; [done| |done].
    simpl. apply Nat.ltb_lt, (H q s k). by exists ws. }
  repeat split; [apply (Hk Onopen)|apply (Hk Onclose)|apply (Hk Onerror)
                 |apply (Hk Onmessage)].
Qed.

(** A step puts no reject closure of an existing promise into a slot. *)
Lemma holds_reject_step a w q s k :
  holds_reject (step a w) q s k →
  holds_reject w q s k ∨ (q = length (promises w) ∧ a = Reconnect).
Proof.
  intros (ws & Hws & Hk).
  destruct a as [data| | |s0 ev|l| |data]; simpl in Hws;
    [| | | |left; by exists ws..].
  - left. unfold send, socket_send, ret, throw in Hws.
    destruct (isDisposed w); [by exists ws|].
    destruct (SocketStream.socket (this w)) as [s1|]; [|by exists ws].
    simpl in Hws. destruct (sockets w !! s1) as [ws1|] eqn:H1; [|by exists ws].
    destruct (WebSocket.send data ws1) as [ws1' c] eqn:Hsend. simpl in Hws.
    destruct (decide (s = s1)) as [->|Hne].
    + rewrite lookup_insert_eq in Hws. injection Hws as <-.
      exists ws1. split; [done|].
      by rewrite <- (get_send k data ws1), Hsend.
    + rewrite lookup_insert_ne in Hws by done. by exists ws.
  - left. destruct (SocketStream.socket (this w)) as [s1|] eqn:Hs.
    + destruct (dispose_with_socket w s1 Hs) as [Hsock _].
      rewrite Hsock in Hws. destruct (decide (s = s1)) as [->|Hne].
      * rewrite lookup_alter_eq in Hws.
        destruct (sockets w !! s1) as [ws1|]; [|done].
        injection Hws as <-. by rewrite get_torn_down in Hk.
      * rewrite lookup_alter_ne in Hws by done. by exists ws.
    + destruct (dispose_no_socket w Hs) as [Hsock _].
      rewrite Hsock in Hws. by exists ws.
  - destruct (isDisposed w) eqn:Hd.
    { left. rewrite reconnect_disposed in Hws by done. by exists ws. }
    destruct (SocketStream.connector (this w) (sockets w)) as [on|s1|e] eqn:Hc.
    + rewrite (reconnect_opens w on) in Hws by done. simpl in Hws.
      destruct (decide (s = new_ref (sockets w))) as [->|Hne].
      * rewrite lookup_insert_eq in Hws. injection Hws as <-.
        right. destruct k; simpl in Hk.
        -- by destruct (on Onopen).
        -- by injection Hk as <-.
        -- by destruct (on Onerror).
        -- by destruct (SocketStream.onmessage (this w)).
      * rewrite lookup_insert_ne in Hws by done. left. by exists ws.
    + rewrite (reconnect_reuses w s1) in Hws by done. simpl in Hws.
      destruct (decide (s = s1)) as [->|Hne].
      * rewrite !lookup_alter_eq in Hws.
        destruct (sockets w !! s1) as [ws1|] eqn:H1; [|done].
        simpl in Hws. injection Hws as <-. destruct k; simpl in Hk.
        -- left. by exists ws1.
        -- injection Hk as <-. by right.
        -- left. by exists ws1.
        -- by destruct (SocketStream.onmessage (this w)).
      * rewrite !lookup_alter_ne in Hws by done. left. by exists ws.
    + rewrite (reconnect_fails w e) in Hws by done. left. by exists ws.
  - left. unfold fire in Hws.
    destruct (sockets w !! s0) as [ws0|] eqn:H0; [|by exists ws].
    assert (Hws' : <[s0 := WebSocket.set_readyState
                             (ready_after ev (WebSocket.readyState ws0)) ws0]>
                     (sockets w) !! s = Some ws).
    { destruct (WebSocket.get (slot_of ev) ws0) as [[f|q0]|]; simpl in Hws;
        by rewrite ?sockets_reject in Hws. }
    destruct (decide (s = s0)) as [->|Hne].
    + rewrite lookup_insert_eq in Hws'. injection Hws' as <-.
      exists ws0. by rewrite get_set_readyState in Hk.
    + rewrite lookup_insert_ne in Hws' by done. by exists ws.
Qed.

Lemma slot_of_close ev : slot_of ev = Onclose → ev = EvClose.
Proof. by destruct ev. Qed.

(** A step leaves a promise as it is, unless the step is a socket event
    whose slot holds the promise's reject closure: then a pending promise
    becomes rejected with the closed-stream error. *)
Lemma promises_step a w p st :
  promises w !! p = Some st →
  promises (step a w) !! p = Some st
  ∨ (st = Pending
     ∧ promises (step a w) !! p = Some (Rejected stream_closed)
     ∧ ∃ s ev, a = Fire s ev ∧ holds_reject w p s (slot_of ev)).
Proof.
  intros Hp. destruct a as [data| | |s ev|l| |data]; simpl; [| | | |by left..].
  - left. by rewrite promises_send.
  - left. by rewrite promises_dispose.
  - left. destruct (promises_reconnect w) as [st' ->].
    by apply lookup_app_l_Some.
  - unfold fire. destruct (sockets w !! s) as [ws|] eqn:Hws; [|by left].
    destruct (WebSocket.get (slot_of ev) ws) as [[f|q]|] eqn:Hk; simpl;
      [by left| |by left].
    unfold reject. simpl.
    destruct (promises w !! q) as [[| |e]|] eqn:Hq; simpl; try by left.
    destruct (decide (p = q)) as [->|Hne].
    + right. rewrite Hq in Hp. injection Hp as <-.
      split; [done|]. split.
      * apply list_lookup_insert_eq. by eapply lookup_lt_Some.
      * exists s, ev. split; [done|]. by exists ws.
    + left. by rewrite list_lookup_insert_ne.
Qed.

Lemma attempt_inv_step p s a w : attempt_inv p s w → attempt_inv p s (step a w).
Proof.
  intros [Hst Hat]. split.
  - destruct Hst as [Hp|Hp];
      destruct (promises_step a w p _ Hp) as [?|(? & ? & _)]; auto; done.
  - intros s' k Hh.
    destruct (holds_reject_step a w p s' k Hh) as [?|[Hnew _]]; auto.
    assert (p < length (promises w)); [|lia].
    destruct Hst as [Hp|Hp]; by eapply lookup_lt_Some.
Qed.

Lemma attempt_inv_run p s acts w :
  attempt_inv p s w → attempt_inv p s (run acts w).
Proof.
  intros Hw. induction acts as [|a acts IH] using rev_ind; [done|].
  rewrite run_snoc. by apply attempt_inv_step.
Qed.

(** The invariant holds when [reconnect] returns on a live stream whose
    factory returned socket [s]. *)
Lemma attempt_inv_reconnect w s :
  heap_closed w →
  isDisposed w = false →
  connector_returns w s →
  promises (reconnect w).1 !! length (promises w) = Some Pending
  ∧ WebSocket.onclose <$> sockets (reconnect w).1 !! s
    = Some (Some (RejectAttempt (length (promises w))))
  ∧ attempt_inv (length (promises w)) s (reconnect w).1.
Proof.
  intros Hclosed Hd Hret. unfold connector_returns in Hret.
  assert (Hold : ∀ s' k, ¬ holds_reject w (length (promises w)) s' k).
  { intros s' k Hh. pose proof (heap_closed_holds _ _ _ _ Hclosed Hh). lia. }
  destruct (SocketStream.connector (this w) (sockets w)) as [on|s1|e] eqn:Hc;
    [| |done].
  - subst s. rewrite (reconnect_opens w on) by done. simpl.
    split; [apply lookup_last|]. split; [by rewrite lookup_insert_eq|].
    split; [left; apply lookup_last|].
    intros s' k (ws & Hws & Hk). simpl in Hws.
    destruct (decide (s' = new_ref (sockets w))) as [->|Hne].
    + rewrite lookup_insert_eq in Hws. injection Hws as <-.
      split; [done|]. destruct k; simpl in Hk; [|done| |].
      * by destruct (on Onopen).
      * by destruct (on Onerror).
      * by destruct (SocketStream.onmessage (this w)).
    + rewrite lookup_insert_ne in Hws by done.
      destruct (Hold s' k). by exists ws.
  - destruct Hret as [-> [ws1 H1]].
    rewrite (reconnect_reuses w s1) by done. simpl.
    split; [apply lookup_last|]. split.
    { by rewrite !lookup_alter_eq, H1. }
    split; [left; apply lookup_last|].
    intros s' k (ws & Hws & Hk). simpl in Hws.
    destruct (decide (s' = s1)) as [->|Hne].
    + rewrite !lookup_alter_eq, H1 in Hws. simpl in Hws. injection Hws as <-.
      split; [done|]. destruct k; simpl in Hk; [|done| |].
      * destruct (Hold s1 Onopen). by exists ws1.
      * destruct (Hold s1 Onerror). by exists ws1.
      * by destruct (SocketStream.onmessage (this w)).
    + rewrite !lookup_alter_ne in Hws by done.
      destruct (Hold s' k). by exists ws.
Qed.

(** C3. On a live stream whose factory returns socket [s], [reconnect()]
    returns normally a pending promise [p] and leaves in [s.onclose] the
    closure that rejects [p]. Whatever happens next, [p] is never
    fulfilled: it is pending, or rejected with the error
    [socket stream has closed]. The only step that settles it is the close
    event of [s], and the close event of [s], arriving first, does reject
    it with that error. *)
Theorem reconnect_promise_only_rejects_on_close (w : World) (s : SockRef) :
  heap_closed w →
  isDisposed w = false →
  connector_returns w s →
  let p := length (promises w) in
  let w1 := (reconnect w).1 in
  (reconnect w).2 = Normal p
  ∧ promises w1 !! p = Some Pending
  ∧ WebSocket.onclose <$> sockets w1 !! s = Some (Some (RejectAttempt p))
  ∧ promises (fire s EvClose w1) !! p = Some (Rejected stream_closed)
  ∧ ∀ acts,
      let w2 := run acts w1 in
      promises w2 !! p ≠ Some Fulfilled
      ∧ (promises w2 !! p = Some Pending
         ∨ promises w2 !! p = Some (Rejected stream_closed))
      ∧ ∀ a,
          promises w2 !! p = Some Pending →
          promises (step a w2) !! p ≠ Some Pending →
          a = Fire s EvClose
          ∧ promises (step a w2) !! p = Some (Rejected stream_closed).
Proof.
  intros Hclosed Hd Hret p w1.
  destruct (attempt_inv_reconnect w s Hclosed Hd Hret) as (Hp & Hslot & Hinv).
  fold p w1 in Hp, Hslot, Hinv.
  split; [apply reconnect_returns|]. split; [done|]. split; [done|]. split.
  { unfold fire. destruct (sockets w1 !! s) as [ws|] eqn:Hws; [|done].
    simpl in Hslot. injection Hslot as Hslot. simpl. rewrite Hslot. simpl.
    unfold reject. simpl. rewrite Hp. simpl.
    apply list_lookup_insert_eq. by eapply lookup_lt_Some. }
  intros acts w2.
  destruct (attempt_inv_run p s acts w1 Hinv) as [Hst Hat]. fold w2 in Hst, Hat.
  split; [by destruct Hst as [-> | ->]|]. split; [done|].
  intros a Hpend Hmoved.
  destruct (promises_step a w2 p _ Hpend)
    as [?|(_ & Hrej & s' & ev & -> & Hh)]; [done|].
  destruct (Hat _ _ Hh) as [-> Hev]. apply slot_of_close in Hev. by subst ev.
Qed.

(** ** Closed heaps *)

Lemma length_promises_step a w :
  length (promises w) ≤ length (promises (step a w)).
Proof.
  destruct a as [data| | |s ev|l| |data]; simpl; [| | | |done..].
  - by rewrite promises_send.
  - by rewrite promises_dispose.
  - destruct (promises_reconnect w) as [st ->]. rewrite length_app. lia.
  - unfold fire, invoke.
    repeat case_match; simpl; by rewrite ?length_promises_reject.
Qed.

Lemma heap_closed_step a w : heap_closed w → heap_closed (step a w).
Proof.
  intros Hc. apply holds_heap_closed. intros q s k Hh.
  destruct (holds_reject_step a w q s k Hh) as [Hold|[-> ->]].
  - pose proof (heap_closed_holds _ _ _ _ Hc Hold).
    pose proof (length_promises_step a w). lia.
  - simpl. destruct (promises_reconnect w) as [st ->]. rewrite length_app.
    simpl. lia.
Qed.

(** Every state a stream reaches from its construction over an empty store
    has a closed heap. *)
Lemma heap_closed_reachable self sender options acts :
  heap_closed (run acts (constructor self sender options ∅)).
Proof.
  induction acts as [|a acts IH] using rev_ind.
  - unfold heap_closed, constructor.
    destruct (SocketStream.opt_onmessage options); apply map_Forall_empty.
  - rewrite run_snoc. by apply heap_closed_step.
Qed.

(** ** Scenarios *)

(** A whole life: connect, open, send, close, reconnect, dispose twice. *)
Example scenario_lifecycle :
  log (run [Reconnect; Fire 0 EvOpen; Send (Text "a"); Fire 0 EvClose;
            Reconnect; Dispose; Dispose] demo_world)
  = [PollNew; CallOnmessageFactory 1;
     CallConnector; StoreSocket (Some 0);
     SetSlot 0 Onclose (Some (RejectAttempt 0));
     SetSlot 0 Onmessage (Some (ClientHandler 101));
     CallClient 7;
     SocketSend 0 (Text "a");
     CallConnector; StoreSocket (Some 1);
     SetSlot 1 Onclose (Some (RejectAttempt 1));
     SetSlot 1 Onmessage (Some (ClientHandler 101));
     PollDispose;
     SetSlot 1 Onclose None; SetSlot 1 Onerror None;
     SetSlot 1 Onmessage None; SetSlot 1 Onopen None;
     SocketClose 1; StoreSocket None; SignalClearData 1; StreamStop;
     PollDispose; StoreSocket None; SignalClearData 1; StreamStop].
Proof. reflexivity. Qed.

(** The close of the first socket rejects the first attempt and leaves the
    second pending. *)
Example scenario_close_rejects :
  promises (run [Reconnect; Fire 0 EvOpen; Fire 0 EvClose; Reconnect]
                demo_world)
  = [Rejected stream_closed; Pending].
Proof. reflexivity. Qed.

(** A message on the open socket runs the hook the constructor stored. *)
Example scenario_message :
  log (fire 0 (EvMessage (Text "x")) demo_connected)
  = log demo_connected ++ [CallClient 101].
Proof. reflexivity. Qed.

(** Sending while the socket is still connecting throws, as the socket
    does. *)
Example scenario_send_connecting :
  (send (Text "early") (run [Reconnect] demo_world)).2 = Throw invalid_state.
Proof. reflexivity. Qed.

(** After disposal the close event of the old socket finds no handler. *)
Example scenario_close_after_dispose :
  promises (run [Dispose; Fire 0 EvClose; Reconnect] demo_connected)
  = [Pending; Fulfilled].
Proof. reflexivity. Qed.

(** A factory that hands back the stored socket has that socket's close
    slot overwritten: the promise of the first attempt can no longer be
    rejected, the close event settles the second. *)
Example scenario_stale_socket :
  promises (run [Reconnect; Reconnect; Fire 0 EvClose] reusing_world)
  = [Pending; Rejected stream_closed].
Proof. reflexivity. Qed.

(** ** Instances on the sample streams *)

(** The second attempt of the connected sample stream: its promise is
    pending, and the close of socket 1 rejects it. *)
Lemma reconnect_promise_witness :
  heap_closed demo_connected
  ∧ isDisposed demo_connected = false
  ∧ connector_returns demo_connected 1
  ∧ (reconnect demo_connected).2 = Normal 1
  ∧ promises (reconnect demo_connected).1 !! 1 = Some Pending
  ∧ promises (fire 1 EvClose (reconnect demo_connected).1) !! 1
    = Some (Rejected stream_closed)
  ∧ ∀ acts,
      promises (run acts (reconnect demo_connected).1) !! 1 ≠ Some Fulfilled.
Proof.
  assert (H1 : heap_closed demo_connected).
  { apply (bool_decide_unpack _). vm_compute. exact I. }
  assert (H2 : isDisposed demo_connected = false) by reflexivity.
  assert (H3 : connector_returns demo_connected 1) by (vm_compute; reflexivity).
  pose proof (reconnect_promise_only_rejects_on_close demo_connected 1
                H1 H2 H3) as (Hr & Hp & _ & Hf & Hall).
  repeat split; try assumption.
  intros acts. apply Hall.
Defined.

(** The poll's factory running once more after the sample stream was
    disposed. *)
Lemma reconnect_when_disposed_witness :
  isDisposed (dispose demo_connected).1 = true
  ∧ (reconnect (dispose demo_connected).1).2 = Normal 1
  ∧ promises (reconnect (dispose demo_connected).1).1 !! 1 = Some Fulfilled
  ∧ this (reconnect (dispose demo_connected).1).1
    = this (dispose demo_connected).1
  ∧ sockets (reconnect (dispose demo_connected).1).1
    = sockets (dispose demo_connected).1
  ∧ log (reconnect (dispose demo_connected).1).1
    = log (dispose demo_connected).1.
Proof.
  assert (H : isDisposed (dispose demo_connected).1 = true) by reflexivity.
  pose proof (reconnect_when_disposed (dispose demo_connected).1 H)
    as (Hr & _ & Hp & Ht & Hs & Hl).
  repeat split; assumption.
Defined.

(** The first attempt of the stream whose factory throws. *)
Lemma reconnect_factory_throws_witness :
  isDisposed failing_world = false
  ∧ SocketStream.connector (this failing_world) (sockets failing_world)
    = Fails refused
  ∧ (reconnect failing_world).2 = Normal 0
  ∧ promises (reconnect failing_world).1 !! 0 = Some (Rejected refused)
  ∧ log (reconnect failing_world).1 = [PollNew; CallConnector].
Proof.
  assert (H1 : isDisposed failing_world = false) by reflexivity.
  assert (H2 : SocketStream.connector (this failing_world)
                 (sockets failing_world) = Fails refused) by reflexivity.
  pose proof (reconnect_factory_throws failing_world refused H1 H2)
    as (Hr & Hp & _ & _ & Hl).
  repeat split; assumption.
Defined.

(** The second attempt of the connected sample stream leaves socket 0 as
    it was. *)
Lemma reconnect_frame_witness :
  isDisposed demo_connected = false
  ∧ SocketStream.socket (this demo_connected) = Some 0
  ∧ sockets (reconnect demo_connected).1 !! 1
    = Some (WebSocket.Build
              (Some (ClientHandler 7)) (Some (RejectAttempt 1))
              (Some (ClientHandler 8)) (Some (ClientHandler 101))
              CONNECTING [] 0)
  ∧ sockets (reconnect demo_connected).1 !! 0
    = Some (WebSocket.Build
              (Some (ClientHandler 7)) (Some (RejectAttempt 0))
              (Some (ClientHandler 8)) (Some (ClientHandler 101))
              OPEN [] 0)
  ∧ SocketStream.socket (this (reconnect demo_connected).1) = Some 1.
Proof.
  assert (H1 : isDisposed demo_connected = false) by reflexivity.
  pose proof (reconnect_frame demo_connected
                (λ k, match k with
                      | Onopen => Some 7
                      | Onerror => Some 8
                      | _ => None
                      end)
                H1 eq_refl)
    as (_ & Hnew & _ & Hsock & Hprev).
  split; [assumption|]. split; [reflexivity|]. split; [assumption|].
  split; [|assumption].
  apply (Hprev 0); reflexivity.
Defined.

(** * Further properties of the methods *)

(** ** [send] on a live stream *)

Lemma send_live w s ws data :
  isDisposed w = false →
  SocketStream.socket (this w) = Some s →
  sockets w !! s = Some ws →
  send data w
  = (mkWorld (this w) (<[s := (WebSocket.send data ws).1]> (sockets w))
             (promises w) (log w ++ [SocketSend s data]),
     (WebSocket.send data ws).2).
Proof.
  intros Hd Hs Hws. unfold send, socket_send. rewrite Hd, Hs. simpl.
  rewrite Hws. by destruct (WebSocket.send data ws).
Qed.

Lemma send_keeps_state data ws :
  WebSocket.readyState (WebSocket.send data ws).1 = WebSocket.readyState ws
  ∧ WebSocket.close_calls (WebSocket.send data ws).1
    = WebSocket.close_calls ws.
Proof.
  unfold WebSocket.send. by destruct (WebSocket.readyState ws) eqn:E.
Qed.

(** X1. On a live stream that stores socket [s], [send(data)] is one call
    of [s.send(data)] and nothing more: its completion is the completion of
    that call, the log gains that one call, [s] becomes what its [send]
    leaves (its slots, ready state and [close] count unchanged), and the
    object, the promises and every other socket stay as they were. *)
Theorem send_forwards (w : World) (s : SockRef) (ws : WebSocket.t)
    (data : Payload) :
  isDisposed w = false →
  SocketStream.socket (this w) = Some s →
  sockets w !! s = Some ws →
  let w' := (send data w).1 in
  (send data w).2 = (WebSocket.send data ws).2
  ∧ log w' = log w ++ [SocketSend s data]
  ∧ this w' = this w
  ∧ promises w' = promises w
  ∧ sockets w' !! s = Some (WebSocket.send data ws).1
  ∧ (∀ k, WebSocket.get k (WebSocket.send data ws).1 = WebSocket.get k ws)
  ∧ WebSocket.readyState (WebSocket.send data ws).1 = WebSocket.readyState ws
  ∧ WebSocket.close_calls (WebSocket.send data ws).1
    = WebSocket.close_calls ws
  ∧ ∀ s', s' ≠ s → sockets w' !! s' = sockets w !! s'.
Proof.
  intros Hd Hs Hws w'. subst w'. rewrite (send_live w s ws) by done. simpl.
  destruct (send_keeps_state data ws) as [Hr Hc].
  split; [done|]. split; [done|]. split; [done|]. split; [done|].
  split; [apply lookup_insert_eq|].
  split; [intros k; apply get_send|]. split; [done|]. split; [done|].
  intros s' Hne. by rewrite lookup_insert_ne.
Qed.

(** X2. After an attempt has opened a new socket [s], [send] goes to [s]
    and to no other socket. Before [s] has opened the call throws the
    socket's [InvalidStateError] and nothing is sent; once the open event of
    [s] has arrived the payload is the one thing [s] has sent and [send]
    returns normally. The socket stored before the attempt is sent
    nothing. *)
Theorem send_targets_new_socket
    (w : World) (on : Slot → option ClientFn) (data : Payload) :
  isDisposed w = false →
  SocketStream.connector (this w) (sockets w) = Opens on →
  let s := new_ref (sockets w) in
  let w1 := (reconnect w).1 in
  let w2 := fire s EvOpen w1 in
  (send data w1).2 = Throw invalid_state
  ∧ log (send data w1).1 = log w1 ++ [SocketSend s data]
  ∧ WebSocket.sent <$> sockets (send data w1).1 !! s = Some []
  ∧ (send data w2).2 = Normal ()
  ∧ log (send data w2).1 = log w2 ++ [SocketSend s data]
  ∧ WebSocket.sent <$> sockets (send data w2).1 !! s = Some [data]
  ∧ ∀ prev, prev ≠ s →
      sockets (send data w2).1 !! prev = sockets w !! prev.
Proof.
  intros Hd Hc s w1 w2. subst w2 w1.
  rewrite (reconnect_opens w on) by done. fold s. simpl.
  unfold fire. simpl. rewrite lookup_insert_eq. simpl.
  unfold send, socket_send, isDisposed. simpl.
  fold (isDisposed w). rewrite Hd. simpl. rewrite lookup_insert_eq. simpl.
  split; [done|]. split; [done|].
  split; [by rewrite lookup_insert_eq|].
  destruct (on Onopen) as [f|]; simpl; fold (isDisposed w); rewrite Hd; simpl;
    rewrite !lookup_insert_eq; simpl;
    (split; [done|]); (split; [done|]);
    (split; [by rewrite lookup_insert_eq|]);
    intros prev Hne; by rewrite !lookup_insert_ne.
Qed.

(** X3. A stream that has just been constructed stores no socket: a [send]
    before the poll's first attempt throws the [TypeError] of calling
    [send] on [null] and changes nothing, whatever the options are. *)
Theorem send_after_construction
    (self : StreamRef) (sender : nat) (options : SocketStream.IOptions)
    (h : Sockets) (data : Payload) :
  let w := constructor self sender options h in
  isDisposed w = false
  ∧ SocketStream.socket (this w) = None
  ∧ promises w = []
  ∧ send data w = (w, Throw null_send).
Proof.
  intros w. subst w. unfold constructor, send, isDisposed.
  by destruct (SocketStream.opt_onmessage options).
Qed.

(** ** The promise [reconnect] returns *)

(** X4. [reconnect()] never throws, whatever the factory does. It returns a
    promise that did not exist before and leaves every earlier promise as
    it was. The new promise is fulfilled exactly when the stream is
    disposed; on a live stream it is pending when the factory returns and
    rejected with the factory's error when the factory throws. *)
Theorem reconnect_promise_state (w : World) :
  let p := length (promises w) in
  let w' := (reconnect w).1 in
  (reconnect w).2 = Normal p
  ∧ ∃ st,
      promises w' = promises w ++ [st]
      ∧ (st = Fulfilled ↔ isDisposed w = true)
      ∧ (isDisposed w = false →
         st = match SocketStream.connector (this w) (sockets w) with
              | Fails e => Rejected e
              | _ => Pending
              end).
Proof.
  intros p w'. subst p w'. destruct (isDisposed w) eqn:Hd.
  - rewrite reconnect_disposed by done. simpl. split; [done|].
    exists Fulfilled. by repeat split.
  - destruct (SocketStream.connector (this w) (sockets w)) as [on|s|e] eqn:Hc.
    + rewrite (reconnect_opens w on) by done. simpl. split; [done|].
      exists Pending. by repeat split.
    + rewrite (reconnect_reuses w s) by done. simpl. split; [done|].
      exists Pending. by repeat split.
    + rewrite (reconnect_fails w e) by done. simpl. split; [done|].
      exists (Rejected e). by repeat split.
Qed.

(** ** The factory is called once per live attempt *)

Lemma connector_calls_app l1 l2 :
  connector_calls (l1 ++ l2) = connector_calls l1 + connector_calls l2.
Proof. unfold connector_calls. apply sum_list_with_app. Qed.

Lemma connector_calls_notify (ls : list nat) data :
  connector_calls ((λ l, Notify l data) <$> ls) = 0.
Proof. induction ls as [|l ls IH]; [done|]. simpl. apply IH. Qed.

Lemma log_reject p e w : log (reject p e w) = log w.
Proof. unfold reject. by repeat case_match. Qed.

(** What a socket event adds to the log: the run of a client handler, or
    nothing. *)
Lemma log_fire s ev w :
  log (fire s ev w) = log w ∨ ∃ f, log (fire s ev w) = log w ++ [CallClient f].
Proof.
  unfold fire. destruct (sockets w !! s) as [ws|]; [|by left].
  destruct (WebSocket.get (slot_of ev) ws) as [[f|q]|]; simpl.
  - right. by exists f.
  - left. by rewrite log_reject.
  - by left.
Qed.

(** What [send] adds to the log: one call of the stored socket, or
    nothing. *)
Lemma log_send data w :
  log (send data w).1 = log w
  ∨ ∃ s, log (send data w).1 = log w ++ [SocketSend s data].
Proof.
  unfold send, socket_send, ret, throw.
  destruct (isDisposed w); [by left|].
  destruct (SocketStream.socket (this w)) as [s|]; [|by left].
  right. exists s. simpl. destruct (sockets w !! s) as [ws|]; [|done].
  by destruct (WebSocket.send data ws).
Qed.

(** X5. Of all the steps of a stream only a reconnection attempt on a live
    stream calls the socket factory, and it calls it exactly once, whether
    the factory returns or throws. An attempt on a disposed stream, a send,
    a disposal, a socket event and the bus operations never call it. *)
Theorem connector_called_once_per_attempt (a : Action) (w : World) :
  connector_calls (log (step a w))
  = connector_calls (log w)
    + match a with
      | Reconnect => if isDisposed w then 0 else 1
      | _ => 0
      end.
Proof.
  destruct a as [data| | |s ev|l| |data]; simpl.
  - destruct (log_send data w) as [->|[s ->]]; [lia|].
    by rewrite connector_calls_app.
  - destruct (SocketStream.socket (this w)) as [s|] eqn:Hs.
    + destruct (dispose_with_socket w s Hs) as [_ ->].
      by rewrite connector_calls_app.
    + destruct (dispose_no_socket w Hs) as [_ ->].
      by rewrite connector_calls_app.
  - destruct (isDisposed w) eqn:Hd.
    { rewrite reconnect_disposed by done. simpl. lia. }
    destruct (SocketStream.connector (this w) (sockets w)) as [on|s|e] eqn:Hc.
    + rewrite (reconnect_opens w on) by done. simpl.
      by rewrite connector_calls_app.
    + rewrite (reconnect_reuses w s) by done. simpl.
      by rewrite connector_calls_app.
    + rewrite (reconnect_fails w e) by done. simpl.
      by rewrite connector_calls_app.
  - destruct (log_fire s ev w) as [->|[f ->]]; [lia|].
    by rewrite connector_calls_app.
  - lia.
  - lia.
  - by rewrite connector_calls_app, connector_calls_notify.
Qed.

(** ** A disposed stream leaves the sockets alone *)

Lemma step_disposed_log a w :
  disposed_state w →
  ∃ l, log (step a w) = log w ++ l ∧ Forall (λ e, socket_call e = false) l.
Proof.
  intros [Hd Hs]. destruct a as [data| | |s ev|l| |data]; simpl.
  - rewrite send_disposed by done. exists []. by rewrite app_nil_r.
  - destruct (dispose_no_socket w Hs) as [_ ->]. eexists. split; [done|].
    by repeat constructor.
  - rewrite reconnect_disposed by done. exists []. by rewrite app_nil_r.
  - destruct (log_fire s ev w) as [->|[f ->]].
    + exists []. by rewrite app_nil_r.
    + eexists. split; [done|]. by repeat constructor.
  - exists []. by rewrite app_nil_r.
  - exists []. by rewrite app_nil_r.
  - eexists. split; [done|]. apply Forall_fmap. by apply Forall_true.
Qed.

(** X6. Once [dispose()] has completed the stream makes no call on any
    socket and none on the factory, whatever happens: everything the log
    gains afterwards, over any sequence of sends, disposals, reconnection
    attempts, socket events and bus operations, is free of slot writes, of
    [send], of [close] and of factory calls. *)
Theorem no_socket_call_after_dispose (w0 : World) (acts : list Action) :
  let w := (dispose w0).1 in
  ∃ l, log (run acts w) = log w ++ l
       ∧ Forall (λ e, socket_call e = false) l.
Proof.
  intros w.
  assert (Hw : disposed_state w) by apply dispose_disposes.
  induction acts as [|a acts IH] using rev_ind.
  - exists []. by rewrite app_nil_r.
  - destruct IH as (l & Hl & Hall). rewrite run_snoc.
    destruct (step_disposed_log a (run acts w)) as (l' & Hl' & Hall').
    { by apply disposed_state_run. }
    exists (l ++ l'). split.
    + by rewrite Hl', Hl, app_assoc.
    + by apply Forall_app.
Qed.

(** ** Disposal and the pending attempt *)

Lemma no_closure_step p a w :
  p < length (promises w) →
  (∀ s k, ¬ holds_reject w p s k) →
  ∀ s k, ¬ holds_reject (step a w) p s k.
Proof.
  intros Hp Hno s k Hh.
  destruct (holds_reject_step a w p s k Hh) as [Hold|[-> _]]; [|lia].
  by apply (Hno s k).
Qed.

Lemma no_closure_run p st acts w :
  promises w !! p = Some st →
  (∀ s k, ¬ holds_reject w p s k) →
  promises (run acts w) !! p = Some st
  ∧ ∀ s k, ¬ holds_reject (run acts w) p s k.
Proof.
  intros Hp Hno. induction acts as [|a acts [IHp IHno]] using rev_ind; [done|].
  rewrite run_snoc. split.
  - destruct (promises_step a (run acts w) p st IHp)
      as [?|(_ & _ & s & ev & _ & Hh)]; [done|].
    by destruct (IHno s (slot_of ev)).
  - apply no_closure_step; [|done]. by eapply lookup_lt_Some.
Qed.

(** X7. Disposing a stream while an attempt is pending on the stored socket
    leaves that attempt's promise pending for ever: [dispose()] clears the
    close slot that held its reject closure, so no later event, not even
    the close event of that socket, settles it. *)
Theorem dispose_orphans_attempt
    (w : World) (s : SockRef) (before after : list Action) :
  heap_closed w →
  isDisposed w = false →
  connector_returns w s →
  let p := length (promises w) in
  let w2 := run before (reconnect w).1 in
  promises w2 !! p = Some Pending →
  SocketStream.socket (this w2) = Some s →
  promises (run after (dispose w2).1) !! p = Some Pending.
Proof.
  intros Hclosed Hd Hret p w2 Hpend Hsock.
  destruct (attempt_inv_reconnect w s Hclosed Hd Hret) as (_ & _ & Hinv).
  apply (attempt_inv_run _ _ before) in Hinv. fold p w2 in Hinv.
  destruct Hinv as [_ Hat].
  apply no_closure_run.
  - by rewrite promises_dispose.
  - intros s' k Hh.
    destruct (holds_reject_step Dispose w2 p s' k Hh) as [Hold|[_ ?]]; [|done].
    destruct (Hat _ _ Hold) as [-> ->].
    destruct Hh as (ws & Hws & Hk).
    destruct (dispose_with_socket w2 s Hsock) as [Hs _].
    rewrite Hs, lookup_alter_eq in Hws.
    destruct (sockets w2 !! s) as [ws2|]; [|done].
    injection Hws as <-. by rewrite get_torn_down in Hk.
Qed.

(** ** A socket that has been replaced *)

(** X8. The stream closes only the socket it stores. When an attempt has
    replaced the stored socket [prev] by a new socket [s], a disposal that
    follows clears and closes [s] and leaves [prev] exactly as it was
    before the attempt: still with its handlers, never closed. *)
Theorem replaced_socket_is_left_open
    (w : World) (on : Slot → option ClientFn) (prev : SockRef)
    (wsp : WebSocket.t) :
  isDisposed w = false →
  SocketStream.connector (this w) (sockets w) = Opens on →
  SocketStream.socket (this w) = Some prev →
  sockets w !! prev = Some wsp →
  let s := new_ref (sockets w) in
  let p := length (promises w) in
  let w' := (dispose (reconnect w).1).1 in
  s ≠ prev
  ∧ sockets w' !! prev = Some wsp
  ∧ sockets w' !! s
    = Some (WebSocket.Build None None None None CLOSING [] 1)
  ∧ log w'
    = log w ++ [CallConnector; StoreSocket (Some s);
                SetSlot s Onclose (Some (RejectAttempt p));
                SetSlot s Onmessage
                  (ClientHandler <$> SocketStream.onmessage (this w));
                PollDispose;
                SetSlot s Onclose None; SetSlot s Onerror None;
                SetSlot s Onmessage None; SetSlot s Onopen None;
                SocketClose s;
                StoreSocket None;
                SignalClearData (SocketStream.self (this w)); StreamStop].
Proof.
  intros Hd Hc Hprev Hlive s p w'. subst w'.
  assert (Hne : s ≠ prev).
  { subst s. intros Heq. by rewrite <- Heq, new_ref_fresh in Hlive. }
  destruct (dispose_with_socket (reconnect w).1 s) as [Hs Hl].
  { by rewrite (reconnect_opens w on). }
  rewrite Hs, Hl. rewrite (reconnect_opens w on) by done. simpl.
  split; [done|]. split.
  { by rewrite lookup_alter_ne, lookup_insert_ne. }
  split.
  { by rewrite lookup_alter_eq, lookup_insert_eq. }
  by rewrite <- app_assoc.
Qed.

(** ** Messages reach the hook *)

Lemma wired_step a w : wired w → wired (step a w).
Proof.
  intros Hw s ws. destruct a as [data| | |s0 ev|l| |data]; simpl.
  - rewrite this_send. intros Hs Hws.
    unfold send, socket_send, ret, throw in Hws.
    destruct (isDisposed w); [by apply (Hw s)|].
    rewrite Hs in Hws. simpl in Hws.
    destruct (sockets w !! s) as [ws1|] eqn:H1; [|by apply (Hw s)].
    destruct (Hw s ws1 Hs H1) as [Hm [p Hp]].
    destruct (WebSocket.send data ws1) as [ws1' c] eqn:Hsend. simpl in Hws.
    rewrite lookup_insert_eq in Hws. injection Hws as <-.
    pose proof (get_send Onmessage data ws1) as Gm.
    pose proof (get_send Onclose data ws1) as Gc.
    rewrite Hsend in Gm, Gc. simpl in Gm, Gc.
    split; [congruence|]. exists p. congruence.
  - rewrite this_dispose. simpl. done.
  - destruct (isDisposed w) eqn:Hd.
    { rewrite reconnect_disposed by done. simpl. apply Hw. }
    destruct (SocketStream.connector (this w) (sockets w)) as [on|s1|e] eqn:Hc.
    + rewrite (reconnect_opens w on) by done. simpl.
      intros [= <-]. rewrite lookup_insert_eq. intros [= <-]. simpl. eauto.
    + rewrite (reconnect_reuses w s1) by done. simpl.
      intros [= <-]. rewrite !lookup_alter_eq.
      destruct (sockets w !! s1) as [ws1|]; [|done].
      simpl. intros [= <-]. simpl. eauto.
    + rewrite (reconnect_fails w e) by done. simpl. apply Hw.
  - rewrite this_fire. intros Hs Hws. unfold fire in Hws.
    destruct (sockets w !! s0) as [ws0|] eqn:H0; [|by apply (Hw s)].
    assert (Hws' : <[s0 := WebSocket.set_readyState
                             (ready_after ev (WebSocket.readyState ws0)) ws0]>
                     (sockets w) !! s = Some ws).
    { destruct (WebSocket.get (slot_of ev) ws0) as [[f|q0]|]; simpl in Hws;
        by rewrite ?sockets_reject in Hws. }
    destruct (decide (s = s0)) as [->|Hne].
    + rewrite lookup_insert_eq in Hws'. injection Hws' as <-.
      apply (Hw s0 ws0 Hs H0).
    + rewrite lookup_insert_ne in Hws' by done. by apply (Hw s).
  - apply Hw.
  - apply Hw.
  - apply Hw.
Qed.

Lemma wired_reachable self sender options h acts :
  wired (run acts (constructor self sender options h)).
Proof.
  induction acts as [|a acts IH] using rev_ind.
  - intros s ws Hs. unfold constructor in Hs.
    by destruct (SocketStream.opt_onmessage options).
  - rewrite run_snoc. by apply wired_step.
Qed.

(** X9. Whatever has happened to a stream since its construction, a message
    event of the socket it stores runs the hook that the constructor got
    from [options.onmessage], once, and does nothing else: no promise is
    settled and nothing but that run is added to the log. With no hook the
    message is dropped. *)
Theorem message_runs_the_hook
    (self : StreamRef) (sender : nat) (options : SocketStream.IOptions)
    (h : Sockets) (acts : list Action) (s : SockRef) (ws : WebSocket.t)
    (data : Payload) :
  let w := run acts (constructor self sender options h) in
  SocketStream.socket (this w) = Some s →
  sockets w !! s = Some ws →
  log (fire s (EvMessage data) w)
  = log w ++ match SocketStream.opt_onmessage options
                   ≫= λ factory, factory self with
             | Some f => [CallClient f]
             | None => []
             end
  ∧ promises (fire s (EvMessage data) w) = promises w
  ∧ this (fire s (EvMessage data) w) = this w.
Proof.
  intros w Hs Hws.
  destruct (wired_reachable self sender options h acts s ws Hs Hws) as [Hm _].
  destruct (fields_run acts (constructor self sender options h)) as [_ Hf].
  fold w in Hm, Hf. rewrite Hf in Hm.
  assert (Hhook : SocketStream.onmessage
                    (this (constructor self sender options h))
                  = SocketStream.opt_onmessage options
                      ≫= λ factory, factory self).
  { unfold constructor.
    destruct (SocketStream.opt_onmessage options) as [factory|]; simpl; [|done].
    by destruct (factory self). }
  rewrite Hhook in Hm. split; [|split; [|apply this_fire]].
  - unfold fire. rewrite Hws. simpl. rewrite Hm.
    destruct (SocketStream.opt_onmessage options ≫= λ factory, factory self);
      simpl; [done|by rewrite app_nil_r].
  - unfold fire. rewrite Hws. simpl. rewrite Hm.
    by destruct (SocketStream.opt_onmessage options ≫= λ factory, factory self).
Qed.

(** ** The handlers of a new socket *)

(** X10. Of the handlers a factory puts on the socket it makes, those in
    [onopen] and [onerror] stay and run on the socket's open and error
    events; those in [onclose] and [onmessage] are overwritten by the
    attempt and never run. The close event runs no client code and rejects
    the attempt's promise; a message event runs the stream's hook, or
    nothing when the stream has none. *)
Theorem factory_handlers_after_reconnect
    (w : World) (on : Slot → option ClientFn) (data : Payload) :
  isDisposed w = false →
  SocketStream.connector (this w) (sockets w) = Opens on →
  let s := new_ref (sockets w) in
  let w1 := (reconnect w).1 in
  let ran (f : option ClientFn) :=
    match f with Some f => [CallClient f] | None => [] end in
  log (fire s EvOpen w1) = log w1 ++ ran (on Onopen)
  ∧ log (fire s EvError w1) = log w1 ++ ran (on Onerror)
  ∧ log (fire s (EvMessage data) w1)
    = log w1 ++ ran (SocketStream.onmessage (this w))
  ∧ log (fire s EvClose w1) = log w1
  ∧ promises (fire s EvClose w1) = promises w ++ [Rejected stream_closed].
Proof.
  intros Hd Hc s w1 ran. subst w1.
  rewrite (reconnect_opens w on) by done. fold s.
  unfold fire. simpl. rewrite lookup_insert_eq. simpl.
  split; [|split; [|split; [|split]]].
  - destruct (on Onopen); simpl; [done|by rewrite app_nil_r].
  - destruct (on Onerror); simpl; [done|by rewrite app_nil_r].
  - destruct (SocketStream.onmessage (this w)); simpl;
      [done|by rewrite app_nil_r].
  - by rewrite log_reject.
  - unfold reject. simpl. rewrite lookup_last. simpl. apply insert_last.
Qed.

(** ** What changes the disposal state and the stored socket *)

(** X11. Only [dispose()] disposes a stream and only [dispose()] and a
    reconnection attempt on a live stream change the stored socket. A send,
    a socket event (a close or an error included), a throwing factory and
    the bus operations leave both as they are; an attempt whose factory
    returns stores the returned socket. *)
Theorem what_changes_the_stream (a : Action) (w : World) :
  isDisposed (step a w)
  = match a with
    | Dispose => true
    | _ => isDisposed w
    end
  ∧ SocketStream.socket (this (step a w))
    = match a with
      | Dispose => None
      | Reconnect =>
          if isDisposed w then SocketStream.socket (this w)
          else match SocketStream.connector (this w) (sockets w) with
               | Opens _ => Some (new_ref (sockets w))
               | Reuses s => Some s
               | Fails _ => SocketStream.socket (this w)
               end
      | _ => SocketStream.socket (this w)
      end.
Proof.
  unfold isDisposed. destruct a as [data| | |s ev|l| |data]; simpl.
  - by rewrite this_send.
  - by rewrite this_dispose.
  - fold (isDisposed w). destruct (isDisposed w) eqn:Hd.
    { by rewrite reconnect_disposed. }
    destruct (SocketStream.connector (this w) (sockets w)) as [on|s|e] eqn:Hc.
    + by rewrite (reconnect_opens w on).
    + by rewrite (reconnect_reuses w s).
    + by rewrite (reconnect_fails w e).
  - by rewrite this_fire.
  - done.
  - done.
  - done.
Qed.

(** ** Sending after the socket has closed *)

(** X12. The close event of the stored socket does not clear
    [this.socket]. Until the next attempt stores a new socket, a [send] on
    the still live stream is a call of [send] on the closed socket: it
    returns normally, as a closed socket's [send] does, and the payload is
    sent nowhere. *)
Theorem send_after_close_is_dropped
    (w : World) (s : SockRef) (ws : WebSocket.t) (data : Payload) :
  isDisposed w = false →
  SocketStream.socket (this w) = Some s →
  sockets w !! s = Some ws →
  let w1 := fire s EvClose w in
  isDisposed w1 = false
  ∧ SocketStream.socket (this w1) = Some s
  ∧ (send data w1).2 = Normal ()
  ∧ log (send data w1).1 = log w1 ++ [SocketSend s data]
  ∧ WebSocket.sent <$> sockets (send data w1).1 !! s = Some (WebSocket.sent ws)
  ∧ ∀ s', WebSocket.sent <$> sockets (send data w1).1 !! s'
          = WebSocket.sent <$> sockets w !! s'.
Proof.
  intros Hd Hs Hws w1.
  assert (Ht : this w1 = this w) by apply this_fire.
  assert (Hd1 : isDisposed w1 = false) by (unfold isDisposed; by rewrite Ht).
  assert (Hs1 : SocketStream.socket (this w1) = Some s) by by rewrite Ht.
  assert (Hw1 : sockets w1
                = <[s := WebSocket.set_readyState CLOSED ws]> (sockets w)).
  { subst w1. unfold fire. rewrite Hws. simpl.
    destruct (WebSocket.onclose ws) as [[f|q]|]; simpl;
      by rewrite ?sockets_reject. }
  assert (Hl1 : sockets w1 !! s = Some (WebSocket.set_readyState CLOSED ws)).
  { by rewrite Hw1, lookup_insert_eq. }
  rewrite (send_live w1 s _ data Hd1 Hs1 Hl1). simpl.
  split; [done|]. split; [done|]. split; [done|]. split; [done|].
  split; [by rewrite lookup_insert_eq|].
  intros s'. rewrite Hw1. destruct (decide (s' = s)) as [->|Hne].
  - by rewrite !lookup_insert_eq, Hws.
  - by rewrite !lookup_insert_ne.
Qed.

(** ** Instances of the further properties *)

(** A send on the connected sample stream reaches its open socket. *)
Lemma send_forwards_witness :
  isDisposed demo_connected = false
  ∧ SocketStream.socket (this demo_connected) = Some 0
  ∧ sockets demo_connected !! 0 = Some demo_socket
  ∧ (send (Text "hello") demo_connected).2 = Normal ()
  ∧ log (send (Text "hello") demo_connected).1
    = log demo_connected ++ [SocketSend 0 (Text "hello")]
  ∧ WebSocket.sent <$> sockets (send (Text "hello") demo_connected).1 !! 0
    = Some [Text "hello"].
Proof.
  assert (H1 : isDisposed demo_connected = false) by reflexivity.
  assert (H2 : SocketStream.socket (this demo_connected) = Some 0)
    by reflexivity.
  assert (H3 : sockets demo_connected !! 0 = Some demo_socket) by reflexivity.
  pose proof (send_forwards demo_connected 0 demo_socket (Text "hello")
                H1 H2 H3) as (Hc & Hl & _ & _ & Hs & _).
  split; [assumption|]. split; [assumption|]. split; [assumption|].
  split; [assumption|]. split; [assumption|]. by rewrite Hs.
Defined.

(** The second socket of the sample stream, before and after it opens. *)
Lemma send_targets_new_socket_witness :
  isDisposed demo_connected = false
  ∧ SocketStream.connector (this demo_connected) (sockets demo_connected)
    = Opens demo_handlers
  ∧ (send (Text "early") (reconnect demo_connected).1).2 = Throw invalid_state
  ∧ WebSocket.sent
      <$> sockets (send (Text "early")
                     (fire 1 EvOpen (reconnect demo_connected).1)).1 !! 1
    = Some [Text "early"]
  ∧ sockets (send (Text "early")
               (fire 1 EvOpen (reconnect demo_connected).1)).1 !! 0
    = Some demo_socket.
Proof.
  assert (H1 : isDisposed demo_connected = false) by reflexivity.
  assert (H2 : SocketStream.connector (this demo_connected)
                 (sockets demo_connected) = Opens demo_handlers)
    by reflexivity.
  pose proof (send_targets_new_socket demo_connected demo_handlers
                (Text "early") H1 H2) as (Ht & _ & _ & _ & _ & Hs & Hp).
  split; [assumption|]. split; [assumption|]. split; [assumption|].
  split; [assumption|].
  assert (Hne : 0 ≠ new_ref (sockets demo_connected)) by (vm_compute; lia).
  exact (Hp 0 Hne).
Defined.

(** The sample stream disposed while its second attempt is pending: the
    close of socket 1 comes too late. *)
Lemma dispose_orphans_attempt_witness :
  heap_closed demo_connected
  ∧ isDisposed demo_connected = false
  ∧ connector_returns demo_connected 1
  ∧ promises (run [Fire 1 EvOpen] (reconnect demo_connected).1) !! 1
    = Some Pending
  ∧ SocketStream.socket
      (this (run [Fire 1 EvOpen] (reconnect demo_connected).1)) = Some 1
  ∧ promises
      (run [Fire 1 EvClose; Reconnect]
         (dispose (run [Fire 1 EvOpen] (reconnect demo_connected).1)).1) !! 1
    = Some Pending.
Proof.
  assert (H1 : heap_closed demo_connected).
  { apply (bool_decide_unpack _). vm_compute. exact I. }
  assert (H2 : isDisposed demo_connected = false) by reflexivity.
  assert (H3 : connector_returns demo_connected 1) by (vm_compute; reflexivity).
  assert (H4 : promises (run [Fire 1 EvOpen] (reconnect demo_connected).1) !! 1
               = Some Pending) by reflexivity.
  assert (H5 : SocketStream.socket
                 (this (run [Fire 1 EvOpen] (reconnect demo_connected).1))
               = Some 1) by reflexivity.
  split; [assumption|]. split; [assumption|]. split; [assumption|].
  split; [assumption|]. split; [assumption|].
  exact (dispose_orphans_attempt demo_connected 1 [Fire 1 EvOpen]
           [Fire 1 EvClose; Reconnect] H1 H2 H3 H4 H5).
Defined.

(** The first socket of the sample stream survives a second attempt and the
    disposal. *)
Lemma replaced_socket_is_left_open_witness :
  isDisposed demo_connected = false
  ∧ SocketStream.socket (this demo_connected) = Some 0
  ∧ sockets demo_connected !! 0 = Some demo_socket
  ∧ sockets (dispose (reconnect demo_connected).1).1 !! 0 = Some demo_socket
  ∧ sockets (dispose (reconnect demo_connected).1).1 !! 1
    = Some (WebSocket.Build None None None None CLOSING [] 1).
Proof.
  assert (H1 : isDisposed demo_connected = false) by reflexivity.
  assert (H2 : SocketStream.socket (this demo_connected) = Some 0)
    by reflexivity.
  assert (H3 : sockets demo_connected !! 0 = Some demo_socket) by reflexivity.
  pose proof (replaced_socket_is_left_open demo_connected demo_handlers 0
                demo_socket H1 eq_refl H2 H3) as (_ & Hp & Hs & _).
  repeat split; assumption.
Defined.

(** A message on the open socket of the sample stream. *)
Lemma message_runs_the_hook_witness :
  SocketStream.socket (this demo_connected) = Some 0
  ∧ sockets demo_connected !! 0 = Some demo_socket
  ∧ log (fire 0 (EvMessage (Text "x")) demo_connected)
    = log demo_connected ++ [CallClient 101]
  ∧ promises (fire 0 (EvMessage (Text "x")) demo_connected)
    = promises demo_connected.
Proof.
  assert (H1 : SocketStream.socket (this demo_connected) = Some 0)
    by reflexivity.
  assert (H2 : sockets demo_connected !! 0 = Some demo_socket) by reflexivity.
  pose proof (message_runs_the_hook 1 0 demo_options ∅
                [Reconnect; Fire 0 EvOpen] 0 demo_socket (Text "x") H1 H2)
    as (Hl & Hp & _).
  repeat split; assumption.
Defined.

(** The events of the second socket of the sample stream. *)
Lemma factory_handlers_after_reconnect_witness :
  isDisposed demo_connected = false
  ∧ SocketStream.connector (this demo_connected) (sockets demo_connected)
    = Opens demo_handlers
  ∧ log (fire 1 EvOpen (reconnect demo_connected).1)
    = log (reconnect demo_connected).1 ++ [CallClient 7]
  ∧ log (fire 1 EvClose (reconnect demo_connected).1)
    = log (reconnect demo_connected).1
  ∧ promises (fire 1 EvClose (reconnect demo_connected).1)
    = [Pending; Rejected stream_closed].
Proof.
  assert (H1 : isDisposed demo_connected = false) by reflexivity.
  assert (H2 : SocketStream.connector (this demo_connected)
                 (sockets demo_connected) = Opens demo_handlers)
    by reflexivity.
  pose proof (factory_handlers_after_reconnect demo_connected demo_handlers
                (Text "x") H1 H2) as (Ho & _ & _ & Hl & Hp).
  repeat split; assumption.
Defined.

(** A send on the sample stream after its socket has closed. *)
Lemma send_after_close_is_dropped_witness :
  isDisposed demo_connected = false
  ∧ SocketStream.socket (this demo_connected) = Some 0
  ∧ sockets demo_connected !! 0 = Some demo_socket
  ∧ (send (Text "late") (fire 0 EvClose demo_connected)).2 = Normal ()
  ∧ WebSocket.sent
      <$> sockets (send (Text "late") (fire 0 EvClose demo_connected)).1 !! 0
    = Some [].
Proof.
  assert (H1 : isDisposed demo_connected = false) by reflexivity.
  assert (H2 : SocketStream.socket (this demo_connected) = Some 0)
    by reflexivity.
  assert (H3 : sockets demo_connected !! 0 = Some demo_socket) by reflexivity.
  pose proof (send_after_close_is_dropped demo_connected 0 demo_socket
                (Text "late") H1 H2 H3) as (_ & _ & Hc & _ & Hs & _).
  repeat split; assumption.
Defined.

(** ** [send] with no current transport *)

(** C7, counterexample. In the reconnection gap of the sample stream (the
    stored socket has closed, the stream is live, no new attempt has run)
    [send] returns normally and the payload is in no socket's sent list:
    the call succeeds silently. So it is not true that every [send] on a
    live stream with no current transport fails. *)
Lemma send_in_gap_succeeds_silently :
  (isDisposed demo_gap = false
   ∧ no_current_transport demo_gap
   ∧ (send (Text "lost") demo_gap).2 = Normal ()
   ∧ state_of (send (Text "lost") demo_gap).1 = state_of demo_gap)
  ∧ ¬ (∀ w data,
         isDisposed w = false →
         no_current_transport w →
         ∃ e, (send data w).2 = Throw e).
Proof.
  assert (Hd : isDisposed demo_gap = false) by reflexivity.
  assert (Hn : no_current_transport demo_gap) by reflexivity.
  assert (Hc : (send (Text "lost") demo_gap).2 = Normal ()) by reflexivity.
  split.
  - split; [done|]. split; [done|]. split; [done|]. reflexivity.
  - intros H. destruct (H demo_gap (Text "lost") Hd Hn) as [e He].
    rewrite Hc in He. discriminate He.
Qed.

(** A closed socket's [send] leaves the socket as it is and returns. *)
Lemma send_closed data ws :
  WebSocket.readyState ws = CLOSED → WebSocket.send data ws = (ws, Normal ()).
Proof. intros Hr. unfold WebSocket.send. by rewrite Hr. Qed.

(** C7, as amended. On a live stream with no current transport
    [send(data)] keeps the payload nowhere: the object, every socket and
    every promise are as before the call. With no socket stored the
    [TypeError] of calling [send] on [null] reaches the caller and nothing
    else happens. With a stored socket that has closed and has not been
    replaced yet, [send] still calls that socket's [send], which returns
    normally: the payload is dropped and the caller is not told. *)
Theorem send_without_transport (w : World) (data : Payload) :
  isDisposed w = false →
  no_current_transport w →
  state_of (send data w).1 = state_of w
  ∧ (SocketStream.socket (this w) = None →
     send data w = (w, Throw null_send))
  ∧ (∀ s, SocketStream.socket (this w) = Some s →
          (send data w).2 = Normal ()
          ∧ log (send data w).1 = log w ++ [SocketSend s data]).
Proof.
  intros Hd Hn. unfold no_current_transport in Hn.
  destruct (SocketStream.socket (this w)) as [s|] eqn:Hs.
  - destruct (sockets w !! s) as [ws|] eqn:Hws; [|done].
    injection Hn as Hr.
    rewrite (send_live w s ws data Hd Hs Hws), (send_closed data ws Hr).
    simpl. split; [|split; [done|]].
    + unfold state_of. simpl. by rewrite insert_id.
    + by intros s' [= <-].
  - rewrite (send_without_socket w data Hd Hs). simpl.
    split; [done|]. split; [done|]. by intros s' [=].
Qed.

(** The amended statement on the sample stream in its reconnection gap. *)
Lemma send_without_transport_witness :
  isDisposed demo_gap = false
  ∧ no_current_transport demo_gap
  ∧ state_of (send (Text "lost") demo_gap).1 = state_of demo_gap
  ∧ (send (Text "lost") demo_gap).2 = Normal ()
  ∧ log (send (Text "lost") demo_gap).1
    = log demo_gap ++ [SocketSend 0 (Text "lost")].
Proof.
  assert (Hd : isDisposed demo_gap = false) by reflexivity.
  assert (Hn : no_current_transport demo_gap) by reflexivity.
  pose proof (send_without_transport demo_gap (Text "lost") Hd Hn)
    as (Hst & _ & Hsome).
  destruct (Hsome 0 eq_refl) as [Hc Hl].
  split; [assumption|]. split; [assumption|]. split; [assumption|].
  split; assumption.
Defined.
